(** * health_check.py: prober, domain aggregator and monitor loop

    A shallow embedding of [src/health_check.py].  Python values are
    modelled by a small universe [pyval]; exceptions by an error monad
    that keeps the mutated state, as Python does; the two [defaultdict]s
    of [monitor_endpoints] by insertion-ordered association lists, since
    the report iterates them in insertion order.

    Modelling conventions.
    - A Python [str] is held as the [string] of its UTF-8 encoding;
      [str.upper] and [urlparse] read the code points off the bytes.
    - A Python [float] is modelled by the rational it denotes ([Q]);
      rounding of the floating-point operations is not modelled.
    - The network and the wall clock are an oracle ([probe_world]) that
      the monitor consults once per probe. *)

From Stdlib Require Import ZArith NArith QArith Ascii String List Lia Bool.
From stdpp Require Import base decidable option list strings gmap pretty.

#[local] Open Scope string_scope.
#[local] Open Scope list_scope.
#[local] Open Scope Z_scope.

(* ===================================================================== *)
(** ** Python values, exceptions, results *)
(* ===================================================================== *)

(** The values that occur in an endpoint descriptor loaded from YAML:
    [None], a string, or a string-to-string mapping (the headers). *)
Inductive pyval :=
| PyNone
| PyStr (s : string)
| PyDict (d : list (string * string)).

#[global] Instance pyval_eq_dec : EqDecision pyval.
Proof. solve_decision. Defined.

(** The exception classes the monitor can meet.  [RequestException]
    stands for [requests.RequestException] and all its subclasses
    (connection error, timeout, invalid URL, ...). *)
Inductive exn :=
| RequestException
| AttributeError
| KeyError
| ValueError
| ZeroDivisionError.

#[global] Instance exn_eq_dec : EqDecision exn.
Proof. solve_decision. Defined.

(** [isinstance(e, requests.RequestException)] *)
Definition is_RequestException (e : exn) : bool :=
  match e with RequestException => true | _ => false end.

Inductive result (A : Type) :=
| Return (a : A)
| Raise (e : exn).
Arguments Return {A} a.
Arguments Raise {A} e.

(* ===================================================================== *)
(** ** [str.upper] and the method table *)
(* ===================================================================== *)

Module Str.

(** A [str] is held as its UTF-8 encoding; the code points are read off
    the bytes.  A byte that is not part of a well-formed sequence (no
    [str] has one) is carried through as the number [0x110000 + byte]. *)
Definition bytes_of (s : string) : list N :=
  map N_of_ascii (list_ascii_of_string s).

Definition of_bytes (l : list N) : string :=
  string_of_list_ascii (map ascii_of_N l).

Definition is_cont (b : N) : bool := ((128 <=? b) && (b <? 192))%N.

Definition stray (b : N) : N := (1114112 + b)%N.

Fixpoint decode (l : list N) : list N :=
  match l with
  | [] => []
  | b0 :: r =>
      if (b0 <? 128)%N then b0 :: decode r
      else
        match r with
        | [] => [stray b0]
        | b1 :: r1 =>
            if ((192 <=? b0) && (b0 <? 224))%N && is_cont b1
            then ((b0 - 192) * 64 + (b1 - 128))%N :: decode r1
            else
              match r1 with
              | [] => stray b0 :: decode r
              | b2 :: r2 =>
                  if ((224 <=? b0) && (b0 <? 240))%N
                     && is_cont b1 && is_cont b2
                  then ((b0 - 224) * 4096 + (b1 - 128) * 64 + (b2 - 128))%N
                       :: decode r2
                  else
                    match r2 with
                    | [] => stray b0 :: decode r
                    | b3 :: r3 =>
                        if ((240 <=? b0) && (b0 <? 248))%N
                           && is_cont b1 && is_cont b2 && is_cont b3
                        then ((b0 - 240) * 262144 + (b1 - 128) * 4096
                              + (b2 - 128) * 64 + (b3 - 128))%N
                             :: decode r3
                        else stray b0 :: decode r
                    end
              end
        end
  end.

Definition encode_codepoint (c : N) : list N :=
  if (c <? 128)%N then [c]
  else if (c <? 2048)%N then [192 + c / 64; 128 + c mod 64]%N
  else if (c <? 65536)%N
       then [224 + c / 4096; 128 + (c / 64) mod 64; 128 + c mod 64]%N
  else if (c <? 1114112)%N
       then [240 + c / 262144; 128 + (c / 4096) mod 64;
             128 + (c / 64) mod 64; 128 + c mod 64]%N
  else [c - 1114112]%N.

Definition encode (l : list N) : list N := flat_map encode_codepoint l.

(** The code points of a [str]. *)
Definition codepoints (s : string) : list N := decode (bytes_of s).

(** The uppercase mapping of [str.upper] outside ASCII (Unicode 14.0, as
    in CPython 3.11): [(first, last, step, delta)] maps the code points
    [first, first + step, ..., last] to themselves plus [delta]; the
    code points of [upper_special] map to more than one. *)
Definition upper_ranges : list (N * N * N * Z) :=
  [
    (181, 181, 1, (743)%Z); (224, 246, 1, (-32)%Z); (248, 254, 1, (-32)%Z);
    (255, 255, 1, (121)%Z); (257, 303, 2, (-1)%Z); (305, 305, 1, (-232)%Z);
    (307, 311, 2, (-1)%Z); (314, 328, 2, (-1)%Z); (331, 375, 2, (-1)%Z);
    (378, 382, 2, (-1)%Z); (383, 383, 1, (-300)%Z); (384, 384, 1, (195)%Z);
    (387, 389, 2, (-1)%Z); (392, 392, 1, (-1)%Z); (396, 396, 1, (-1)%Z);
    (402, 402, 1, (-1)%Z); (405, 405, 1, (97)%Z); (409, 409, 1, (-1)%Z);
    (410, 410, 1, (163)%Z); (414, 414, 1, (130)%Z); (417, 421, 2, (-1)%Z);
    (424, 424, 1, (-1)%Z); (429, 429, 1, (-1)%Z); (432, 432, 1, (-1)%Z);
    (436, 438, 2, (-1)%Z); (441, 441, 1, (-1)%Z); (445, 445, 1, (-1)%Z);
    (447, 447, 1, (56)%Z); (453, 453, 1, (-1)%Z); (454, 454, 1, (-2)%Z);
    (456, 456, 1, (-1)%Z); (457, 457, 1, (-2)%Z); (459, 459, 1, (-1)%Z);
    (460, 460, 1, (-2)%Z); (462, 476, 2, (-1)%Z); (477, 477, 1, (-79)%Z);
    (479, 495, 2, (-1)%Z); (498, 498, 1, (-1)%Z); (499, 499, 1, (-2)%Z);
    (501, 501, 1, (-1)%Z); (505, 543, 2, (-1)%Z); (547, 563, 2, (-1)%Z);
    (572, 572, 1, (-1)%Z); (575, 576, 1, (10815)%Z); (578, 578, 1, (-1)%Z);
    (583, 591, 2, (-1)%Z); (592, 592, 1, (10783)%Z); (593, 593, 1, (10780)%Z);
    (594, 594, 1, (10782)%Z); (595, 595, 1, (-210)%Z); (596, 596, 1, (-206)%Z);
    (598, 599, 1, (-205)%Z); (601, 601, 1, (-202)%Z); (603, 603, 1, (-203)%Z);
    (604, 604, 1, (42319)%Z); (608, 608, 1, (-205)%Z); (609, 609, 1, (42315)%Z);
    (611, 611, 1, (-207)%Z); (613, 613, 1, (42280)%Z); (614, 614, 1, (42308)%Z);
    (616, 616, 1, (-209)%Z); (617, 617, 1, (-211)%Z); (618, 618, 1, (42308)%Z);
    (619, 619, 1, (10743)%Z); (620, 620, 1, (42305)%Z); (623, 623, 1, (-211)%Z);
    (625, 625, 1, (10749)%Z); (626, 626, 1, (-213)%Z); (629, 629, 1, (-214)%Z);
    (637, 637, 1, (10727)%Z); (640, 640, 1, (-218)%Z); (642, 642, 1, (42307)%Z);
    (643, 643, 1, (-218)%Z); (647, 647, 1, (42282)%Z); (648, 648, 1, (-218)%Z);
    (649, 649, 1, (-69)%Z); (650, 651, 1, (-217)%Z); (652, 652, 1, (-71)%Z);
    (658, 658, 1, (-219)%Z); (669, 669, 1, (42261)%Z); (670, 670, 1, (42258)%Z);
    (837, 837, 1, (84)%Z); (881, 883, 2, (-1)%Z); (887, 887, 1, (-1)%Z);
    (891, 893, 1, (130)%Z); (940, 940, 1, (-38)%Z); (941, 943, 1, (-37)%Z);
    (945, 961, 1, (-32)%Z); (962, 962, 1, (-31)%Z); (963, 971, 1, (-32)%Z);
    (972, 972, 1, (-64)%Z); (973, 974, 1, (-63)%Z); (976, 976, 1, (-62)%Z);
    (977, 977, 1, (-57)%Z); (981, 981, 1, (-47)%Z); (982, 982, 1, (-54)%Z);
    (983, 983, 1, (-8)%Z); (985, 1007, 2, (-1)%Z); (1008, 1008, 1, (-86)%Z);
    (1009, 1009, 1, (-80)%Z); (1010, 1010, 1, (7)%Z); (1011, 1011, 1, (-116)%Z);
    (1013, 1013, 1, (-96)%Z); (1016, 1016, 1, (-1)%Z); (1019, 1019, 1, (-1)%Z);
    (1072, 1103, 1, (-32)%Z); (1104, 1119, 1, (-80)%Z); (1121, 1153, 2, (-1)%Z);
    (1163, 1215, 2, (-1)%Z); (1218, 1230, 2, (-1)%Z); (1231, 1231, 1, (-15)%Z);
    (1233, 1327, 2, (-1)%Z); (1377, 1414, 1, (-48)%Z); (4304, 4346, 1, (3008)%Z);
    (4349, 4351, 1, (3008)%Z); (5112, 5117, 1, (-8)%Z); (7296, 7296, 1, (-6254)%Z);
    (7297, 7297, 1, (-6253)%Z); (7298, 7298, 1, (-6244)%Z); (7299, 7300, 1, (-6242)%Z);
    (7301, 7301, 1, (-6243)%Z); (7302, 7302, 1, (-6236)%Z); (7303, 7303, 1, (-6181)%Z);
    (7304, 7304, 1, (35266)%Z); (7545, 7545, 1, (35332)%Z); (7549, 7549, 1, (3814)%Z);
    (7566, 7566, 1, (35384)%Z); (7681, 7829, 2, (-1)%Z); (7835, 7835, 1, (-59)%Z);
    (7841, 7935, 2, (-1)%Z); (7936, 7943, 1, (8)%Z); (7952, 7957, 1, (8)%Z);
    (7968, 7975, 1, (8)%Z); (7984, 7991, 1, (8)%Z); (8000, 8005, 1, (8)%Z);
    (8017, 8023, 2, (8)%Z); (8032, 8039, 1, (8)%Z); (8048, 8049, 1, (74)%Z);
    (8050, 8053, 1, (86)%Z); (8054, 8055, 1, (100)%Z); (8056, 8057, 1, (128)%Z);
    (8058, 8059, 1, (112)%Z); (8060, 8061, 1, (126)%Z); (8112, 8113, 1, (8)%Z);
    (8126, 8126, 1, (-7205)%Z); (8144, 8145, 1, (8)%Z); (8160, 8161, 1, (8)%Z);
    (8165, 8165, 1, (7)%Z); (8526, 8526, 1, (-28)%Z); (8560, 8575, 1, (-16)%Z);
    (8580, 8580, 1, (-1)%Z); (9424, 9449, 1, (-26)%Z); (11312, 11359, 1, (-48)%Z);
    (11361, 11361, 1, (-1)%Z); (11365, 11365, 1, (-10795)%Z); (11366, 11366, 1, (-10792)%Z);
    (11368, 11372, 2, (-1)%Z); (11379, 11379, 1, (-1)%Z); (11382, 11382, 1, (-1)%Z);
    (11393, 11491, 2, (-1)%Z); (11500, 11502, 2, (-1)%Z); (11507, 11507, 1, (-1)%Z);
    (11520, 11557, 1, (-7264)%Z); (11559, 11559, 1, (-7264)%Z); (11565, 11565, 1, (-7264)%Z);
    (42561, 42605, 2, (-1)%Z); (42625, 42651, 2, (-1)%Z); (42787, 42799, 2, (-1)%Z);
    (42803, 42863, 2, (-1)%Z); (42874, 42876, 2, (-1)%Z); (42879, 42887, 2, (-1)%Z);
    (42892, 42892, 1, (-1)%Z); (42897, 42899, 2, (-1)%Z); (42900, 42900, 1, (48)%Z);
    (42903, 42921, 2, (-1)%Z); (42933, 42947, 2, (-1)%Z); (42952, 42954, 2, (-1)%Z);
    (42961, 42961, 1, (-1)%Z); (42967, 42969, 2, (-1)%Z); (42998, 42998, 1, (-1)%Z);
    (43859, 43859, 1, (-928)%Z); (43888, 43967, 1, (-38864)%Z); (65345, 65370, 1, (-32)%Z);
    (66600, 66639, 1, (-40)%Z); (66776, 66811, 1, (-40)%Z); (66967, 67003, 2, (-39)%Z);
    (66968, 66976, 2, (-39)%Z); (66980, 66992, 2, (-39)%Z); (66996, 67000, 2, (-39)%Z);
    (67004, 67004, 1, (-39)%Z); (68800, 68850, 1, (-64)%Z); (71872, 71903, 1, (-32)%Z);
    (93792, 93823, 1, (-32)%Z); (125218, 125251, 1, (-34)%Z)
  ]%N.

Definition upper_special : list (N * list N) :=
  [
    (223, [83; 83]); (329, [700; 78]); (496, [74; 780]);
    (912, [921; 776; 769]); (944, [933; 776; 769]); (1415, [1333; 1362]);
    (7830, [72; 817]); (7831, [84; 776]); (7832, [87; 778]);
    (7833, [89; 778]); (7834, [65; 702]); (8016, [933; 787]);
    (8018, [933; 787; 768]); (8020, [933; 787; 769]); (8022, [933; 787; 834]);
    (8064, [7944; 921]); (8065, [7945; 921]); (8066, [7946; 921]);
    (8067, [7947; 921]); (8068, [7948; 921]); (8069, [7949; 921]);
    (8070, [7950; 921]); (8071, [7951; 921]); (8072, [7944; 921]);
    (8073, [7945; 921]); (8074, [7946; 921]); (8075, [7947; 921]);
    (8076, [7948; 921]); (8077, [7949; 921]); (8078, [7950; 921]);
    (8079, [7951; 921]); (8080, [7976; 921]); (8081, [7977; 921]);
    (8082, [7978; 921]); (8083, [7979; 921]); (8084, [7980; 921]);
    (8085, [7981; 921]); (8086, [7982; 921]); (8087, [7983; 921]);
    (8088, [7976; 921]); (8089, [7977; 921]); (8090, [7978; 921]);
    (8091, [7979; 921]); (8092, [7980; 921]); (8093, [7981; 921]);
    (8094, [7982; 921]); (8095, [7983; 921]); (8096, [8040; 921]);
    (8097, [8041; 921]); (8098, [8042; 921]); (8099, [8043; 921]);
    (8100, [8044; 921]); (8101, [8045; 921]); (8102, [8046; 921]);
    (8103, [8047; 921]); (8104, [8040; 921]); (8105, [8041; 921]);
    (8106, [8042; 921]); (8107, [8043; 921]); (8108, [8044; 921]);
    (8109, [8045; 921]); (8110, [8046; 921]); (8111, [8047; 921]);
    (8114, [8122; 921]); (8115, [913; 921]); (8116, [902; 921]);
    (8118, [913; 834]); (8119, [913; 834; 921]); (8124, [913; 921]);
    (8130, [8138; 921]); (8131, [919; 921]); (8132, [905; 921]);
    (8134, [919; 834]); (8135, [919; 834; 921]); (8140, [919; 921]);
    (8146, [921; 776; 768]); (8147, [921; 776; 769]); (8150, [921; 834]);
    (8151, [921; 776; 834]); (8162, [933; 776; 768]); (8163, [933; 776; 769]);
    (8164, [929; 787]); (8166, [933; 834]); (8167, [933; 776; 834]);
    (8178, [8186; 921]); (8179, [937; 921]); (8180, [911; 921]);
    (8182, [937; 834]); (8183, [937; 834; 921]); (8188, [937; 921]);
    (64256, [70; 70]); (64257, [70; 73]); (64258, [70; 76]);
    (64259, [70; 70; 73]); (64260, [70; 70; 76]); (64261, [83; 84]);
    (64262, [83; 84]); (64275, [1348; 1350]); (64276, [1348; 1333]);
    (64277, [1348; 1339]); (64278, [1358; 1350]); (64279, [1348; 1341])
  ]%N.

Definition in_range (c : N) (r : N * N * N * Z) : bool :=
  let '(first, last, step, _) := r in
  ((first <=? c) && (c <=? last) && ((c - first) mod step =? 0))%N.

(** [chr(c).upper()] *)
Definition upper_codepoint (c : N) : list N :=
  if (c <? 128)%N then
    if ((97 <=? c) && (c <=? 122))%N then [c - 32]%N else [c]
  else
    match List.find (fun e => (fst e =? c)%N) upper_special with
    | Some e => snd e
    | None =>
        match List.find (in_range c) upper_ranges with
        | Some (_, _, _, delta) => [Z.to_N (Z.of_N c + delta)]
        | None => [c]
        end
    end.

(** [s.upper()]: the mapping is applied to each character on its own. *)
Definition upper (s : string) : string :=
  of_bytes (encode (flat_map upper_codepoint (codepoints s))).


End Str.

(** The seven request functions of a [requests.Session]. *)
Inductive http_verb := GET | POST | PUT | DELETE | HEAD | OPTIONS | PATCH.

#[global] Instance http_verb_eq_dec : EqDecision http_verb.
Proof. solve_decision. Defined.


(** [method_switcher]: the dictionary literal of [send_request], in its
    order. *)
Definition method_switcher : list (string * http_verb) :=
  [ ("GET", GET); ("POST", POST); ("PUT", PUT); ("DELETE", DELETE);
    ("HEAD", HEAD); ("OPTIONS", OPTIONS); ("PATCH", PATCH) ].

(** [d.get(key, default)] on a dictionary literal. *)
Fixpoint dict_get {V} (d : list (string * V)) (key : string) (default : V) : V :=
  match d with
  | [] => default
  | (k, v) :: r => if decide (k = key) then v else dict_get r key default
  end.

(** [method.upper()]: an attribute of [str]; on [None] or a mapping the
    attribute lookup fails. *)
Definition method_upper (method : pyval) : result string :=
  match method with
  | PyStr m => Return (Str.upper m)
  | _ => Raise AttributeError
  end.

(** [method_switcher.get(method.upper(), session.get)] *)
Definition request_function (method : pyval) : result http_verb :=
  match method_upper method with
  | Return u => Return (dict_get method_switcher u GET)
  | Raise e => Raise e
  end.

(* ===================================================================== *)
(** ** The prober: [create_session], [send_request], [check_endpoint] *)
(* ===================================================================== *)

Record session := { max_retries : nat }.

Definition create_session : session := {| max_retries := 0 |}.

(** The call [request_function(url, headers=headers, data=body, timeout=1)]. *)
Record http_request := {
  rq_verb : http_verb;
  rq_url : pyval;
  rq_headers : pyval;
  rq_data : pyval;
  rq_timeout : Z;
  rq_session : session
}.

(** What the call does: it returns a response, of which the code reads
    only [status_code], or it raises. *)
Inductive net_result :=
| Response (status_code : Z)
| NetRaise (e : exn).

(** The environment of one probe: the clock read on entry, the answer of
    the network to the request, and the clock read after the response. *)
Record probe_world := {
  time_start : Q;
  respond : http_request -> net_result;
  time_end : Q
}.

Definition Qltb (a b : Q) : bool := negb (Qle_bool b a).

(** [(time.time() - start_time) * 1000] *)
Definition latency_ms (w : probe_world) : Q :=
  ((time_end w - time_start w) * 1000)%Q.

Definition status_2xx (status_code : Z) : bool :=
  (200 <=? status_code) && (status_code <? 300).

Definition build_request (v : http_verb) (url headers body : pyval)
    (s : session) : http_request :=
  {| rq_verb := v; rq_url := url; rq_headers := headers; rq_data := body;
     rq_timeout := 1; rq_session := s |}.

(** The request that [send_request] hands to the session, when the
    method lookup does not raise. *)
Definition issued_request (method url headers body : pyval) (s : session)
    : result http_request :=
  match request_function method with
  | Return f => Return (build_request f url headers body s)
  | Raise e => Raise e
  end.

(** The body of the [try] block of [send_request]: [Return (Some v)] is a
    [return v] inside the block, [Return None] falls out of the block. *)
Definition send_request_try (method url headers body : pyval) (s : session)
    (w : probe_world) : result (option pyval) :=
  match issued_request method url headers body s with
  | Raise e => Raise e
  | Return rq =>
      match respond w rq with
      | NetRaise e => Raise e
      | Response status_code =>
          if status_2xx status_code then
            if Qltb (latency_ms w) 500 then Return (Some (PyStr "UP"))
            else Return None
          else Return None
      end
  end.

(** [send_request].  The handler catches [requests.RequestException]
    only: any other exception leaves the function.  After the block the
    function returns ['DOWN']. *)
Definition send_request (method url headers body : pyval) (s : session)
    (w : probe_world) : result pyval :=
  match send_request_try method url headers body s w with
  | Return (Some v) => Return v
  | Return None => Return (PyStr "DOWN")
  | Raise e =>
      if is_RequestException e then Return (PyStr "DOWN") else Raise e
  end.

(** An endpoint descriptor, a [dict] with string keys. *)
Abbreviation endpoint := (gmap string pyval).

(** [d.get(key, default)] *)
Definition ep_get (e : endpoint) (key : string) (default : pyval) : pyval :=
  match e !! key with Some v => v | None => default end.

(** [d[key]] *)
Definition ep_getitem (e : endpoint) (key : string) : result pyval :=
  match e !! key with Some v => Return v | None => Raise KeyError end.

Definition check_endpoint (e : endpoint) (s : session) (w : probe_world)
    : result pyval :=
  let url := ep_get e "url" PyNone in
  let method := ep_get e "method" (PyStr "GET") in
  let headers := ep_get e "headers" (PyDict []) in
  let body := ep_get e "body" PyNone in
  send_request method url headers body s w.

(* ===================================================================== *)
(** ** [urlparse(url).netloc] *)
(* ===================================================================== *)

(** The network-location part of [urllib.parse.urlsplit], as in CPython
    3.11: tab, CR and LF are removed, leading control characters and
    spaces are stripped, a scheme is split off at the first colon when
    everything before it is a scheme character and the first character a
    letter, and after a leading [//] the netloc runs to the first of
    [/], [?], [#].  [ValueError] is raised for a netloc with only one of
    the two brackets, for a bracketed host that is neither an IPv6 nor
    an IPvFuture address, and for a netloc with a character that NFKC
    normalisation turns into a delimiter. *)
Module Url.

Definition code (c : ascii) : nat := nat_of_ascii c.

Definition is_unsafe (c : ascii) : bool :=
  (code c =? 9)%nat || (code c =? 10)%nat || (code c =? 13)%nat.

Definition is_c0_or_space (c : ascii) : bool := (code c <=? 32)%nat.

Definition is_alpha (c : ascii) : bool :=
  ((65 <=? code c)%nat && (code c <=? 90)%nat)
  || ((97 <=? code c)%nat && (code c <=? 122)%nat).

Definition is_digit (c : ascii) : bool :=
  (48 <=? code c)%nat && (code c <=? 57)%nat.

(** [scheme_chars]: letters, digits, [+], [-], [.] *)
Definition is_scheme_char (c : ascii) : bool :=
  is_alpha c || is_digit c
  || (code c =? 43)%nat || (code c =? 45)%nat || (code c =? 46)%nat.

(** the delimiters [/], [?], [#] of [_splitnetloc] *)
Definition is_delim (c : ascii) : bool :=
  (code c =? 47)%nat || (code c =? 63)%nat || (code c =? 35)%nat.

Definition is_colon (c : ascii) : bool := (code c =? 58)%nat.
Definition is_lbracket (c : ascii) : bool := (code c =? 91)%nat.
Definition is_rbracket (c : ascii) : bool := (code c =? 93)%nat.

(** [(l[:i], l[i:])] for the first [i] with [p l[i]], if any *)
Fixpoint break (p : ascii -> bool) (l : list ascii)
    : list ascii * list ascii :=
  match l with
  | [] => ([], [])
  | c :: r =>
      if p c then ([], l)
      else let '(a, b) := break p r in (c :: a, b)
  end.

(** [url.lstrip(_WHATWG_C0_CONTROL_OR_SPACE)] *)
Fixpoint lstrip (l : list ascii) : list ascii :=
  match l with
  | c :: r => if is_c0_or_space c then lstrip r else l
  | [] => []
  end.

(** the removal of [_UNSAFE_URL_BYTES_TO_REMOVE] *)
Definition remove_unsafe (l : list ascii) : list ascii :=
  List.filter (fun c => negb (is_unsafe c)) l.

(** the url that is left once a scheme has been split off *)
Definition drop_scheme (l : list ascii) : list ascii :=
  match break is_colon l with
  | (c :: pre, _ :: rest) =>
      if is_alpha c && forallb is_scheme_char (c :: pre) then rest else l
  | _ => l
  end.

(** [l.split(c)] *)
Fixpoint split (p : ascii -> bool) (l : list ascii) : list (list ascii) :=
  match l with
  | [] => [[]]
  | c :: r =>
      if p c then [] :: split p r
      else
        match split p r with
        | part :: parts => (c :: part) :: parts
        | [] => [[c]]
        end
  end.

(** [l.rpartition(c)[2]]: what follows the last [c], all of [l] if there
    is none *)
Fixpoint after_last (p : ascii -> bool) (l : list ascii) : list ascii :=
  match l with
  | [] => []
  | c :: r =>
      if existsb p r then after_last p r
      else if p c then r else l
  end.

Definition is_nil {A} (l : list A) : bool :=
  match l with [] => true | _ => false end.

Definition is_at (c : ascii) : bool := (code c =? 64)%nat.
Definition is_dot (c : ascii) : bool := (code c =? 46)%nat.
Definition is_percent (c : ascii) : bool := (code c =? 37)%nat.
Definition is_slash (c : ascii) : bool := (code c =? 47)%nat.
Definition is_newline (c : ascii) : bool := (code c =? 10)%nat.
Definition is_v (c : ascii) : bool := (code c =? 118)%nat.
Definition is_zero (c : ascii) : bool := (code c =? 48)%nat.

(** [_HEX_DIGITS] *)
Definition is_hex (c : ascii) : bool :=
  is_digit c
  || ((65 <=? code c)%nat && (code c <=? 70)%nat)
  || ((97 <=? code c)%nat && (code c <=? 102)%nat).

(** [int(octet_str, 10)] for a string of digits *)
Definition decimal (l : list ascii) : N :=
  fold_left (fun n c => (10 * n + (N.of_nat (code c) - 48))%N) l 0%N.

(** [_BaseV4._parse_octet] does not raise; the checks are made in the
    order of the source. *)
Definition octet_ok (o : list ascii) : bool :=
  if is_nil o then false
  else if negb (forallb is_digit o) then false
  else if (3 <? length o)%nat then false
  else if match o with c :: _ :: _ => is_zero c | _ => false end then false
  else (decimal o <=? 255)%N.

(** [IPv4Address(address)] does not raise *)
Definition ipv4_ok (a : list ascii) : bool :=
  negb (existsb is_slash a)
  && negb (is_nil a)
  && (length (split is_dot a) =? 4)%nat
  && forallb octet_ok (split is_dot a).

(** [_BaseV6._parse_hextet] does not raise *)
Definition hextet_ok (h : list ascii) : bool :=
  forallb is_hex h && (length h <=? 4)%nat && negb (is_nil h).

(** The positions [1 .. len - 2] of [parts] that hold an empty part. *)
Definition inner_empty (parts : list (list ascii)) : list nat :=
  List.filter
    (fun i => (1 <=? i)%nat && (S i <? length parts)%nat
              && is_nil (nth i parts []))
    (seq 0 (length parts)).

(** The checks of [_BaseV6._ip_int_from_string] once an IPv4 suffix has
    been replaced by two hextets. *)
Definition hextets_ok (parts : list (list ascii)) : bool :=
  (length parts <=? 9)%nat
  && match inner_empty parts with
     | _ :: _ :: _ => false
     | [skip_index] =>
         let parts_hi := skip_index in
         let parts_lo := (length parts - skip_index - 1)%nat in
         let first_empty := is_nil (nth 0 parts []) in
         let last_empty := is_nil (List.last parts []) in
         let parts_hi' := if first_empty then (parts_hi - 1)%nat else parts_hi in
         let parts_lo' := if last_empty then (parts_lo - 1)%nat else parts_lo in
         (if first_empty then (parts_hi' =? 0)%nat else true)
         && (if last_empty then (parts_lo' =? 0)%nat else true)
         && (parts_hi' + parts_lo' <=? 7)%nat
         && forallb hextet_ok (firstn parts_hi' parts)
         && forallb hextet_ok (skipn (length parts - parts_lo') parts)
     | [] =>
         (length parts =? 8)%nat
         && negb (is_nil (nth 0 parts []))
         && negb (is_nil (List.last parts []))
         && forallb hextet_ok parts
     end.

(** [_BaseV6._ip_int_from_string] does not raise *)
Definition ipv6_int_ok (a : list ascii) : bool :=
  negb (is_nil a)
  && (3 <=? length (split is_colon a))%nat
  && let parts := split is_colon a in
     let suffix := List.last parts [] in
     if existsb is_dot suffix
     then ipv4_ok suffix
          && hextets_ok (removelast parts ++ [["0"%char]; ["0"%char]])
     else hextets_ok parts.

(** [IPv6Address(address)] does not raise: an optional scope id after
    [%], then the address *)
Definition ipv6_ok (a : list ascii) : bool :=
  negb (existsb is_slash a)
  && match break is_percent a with
     | (addr, []) => ipv6_int_ok addr
     | (addr, _ :: scope_id) =>
         negb (is_nil scope_id) && negb (existsb is_percent scope_id)
         && ipv6_int_ok addr
     end.

(** [_check_bracketed_host] does not raise: an IPvFuture address matches
    [v[a-fA-F0-9]+\..+], anything else must be an IPv6 address. *)
Definition bracketed_host_ok (hostname : list ascii) : bool :=
  match hostname with
  | c :: rest =>
      if is_v c then
        match break (fun x => negb (is_hex x)) rest with
        | (_ :: _, d :: (_ :: _) as tail) =>
            is_dot d && forallb (fun x => negb (is_newline x)) (List.tl tail)
        | _ => false
        end
      else negb (ipv4_ok hostname) && ipv6_ok hostname
  | [] => false
  end.

(** [_check_bracketed_netloc] does not raise *)
Definition bracketed_netloc_ok (netloc : list ascii) : bool :=
  let hostname_and_port := after_last is_at netloc in
  match break is_lbracket hostname_and_port with
  | (before_bracket, _ :: bracketed) =>
      is_nil before_bracket
      && match break is_rbracket bracketed with
         | (hostname, _ :: c :: _) => is_colon c && bracketed_host_ok hostname
         | (hostname, _) => bracketed_host_ok hostname
         end
  | (_, []) =>
      bracketed_host_ok (fst (break is_colon hostname_and_port))
  end.

(** The code points whose NFKC form contains one of [/?#@:]. *)
Definition nfkc_delimiters : list N :=
  [8263; 8264; 8265; 8448; 8449; 8453; 8454; 10868; 65043; 65046;
   65109; 65110; 65119; 65131; 65283; 65295; 65306; 65311; 65312]%N.

(** [_checknetloc] does not raise: a netloc that is not ASCII must not
    hold a character that NFKC turns into a delimiter. *)
Definition checknetloc_ok (netloc : list ascii) : bool :=
  negb (existsb (fun c => existsb (N.eqb c) nfkc_delimiters)
          (Str.decode (map N_of_ascii netloc))).

Definition netloc_chars (l : list ascii) : result (list ascii) :=
  let url := remove_unsafe (lstrip l) in
  match drop_scheme url with
  | c1 :: c2 :: rest =>
      if (code c1 =? 47)%nat && (code c2 =? 47)%nat then
        let netloc := fst (break is_delim rest) in
        let lb := existsb is_lbracket netloc in
        let rb := existsb is_rbracket netloc in
        if (lb && negb rb) || (rb && negb lb) then Raise ValueError
        else if lb && rb && negb (bracketed_netloc_ok netloc)
        then Raise ValueError
        else if negb (checknetloc_ok netloc) then Raise ValueError
        else Return netloc
      else Return []
  | _ => Return []
  end.

Definition netloc (url : string) : result string :=
  match netloc_chars (list_ascii_of_string url) with
  | Return n => Return (string_of_list_ascii n)
  | Raise e => Raise e
  end.



Definition tail_chars_ok (l : list ascii) : bool :=
  match l with
  | c :: _ => is_delim c
  | [] => true
  end.

(** The url has an authority: once the scheme is split off, it starts
    with [//]. *)
Definition authority_starts (l : list ascii) : bool :=
  match drop_scheme (remove_unsafe (lstrip l)) with
  | c1 :: c2 :: _ => (code c1 =? 47)%nat && (code c2 =? 47)%nat
  | _ => false
  end.

Definition has_authority (s : string) : bool :=
  authority_starts (list_ascii_of_string s).



Definition is_tail (s : string) : bool :=
  tail_chars_ok (list_ascii_of_string s).

End Url.

(** A key of the aggregator: the [netloc] of a [str] url is a [str]; of
    a url that is not a [str], [urlparse] returns [bytes]. *)
Inductive domain :=
| DStr (s : string)
| DBytes (b : string).

#[global] Instance domain_eq_dec : EqDecision domain.
Proof. solve_decision. Defined.

(** [urlparse(url).netloc].  [urlparse] decodes an argument that is not a
    [str]: a falsy one ([None], [{}]) decodes to the empty string and
    the result is encoded back, a non-empty mapping has no [decode]. *)
Definition urlparse_netloc (url : pyval) : result domain :=
  match url with
  | PyStr s =>
      match Url.netloc s with
      | Return n => Return (DStr n)
      | Raise e => Raise e
      end
  | PyNone => Return (DBytes "")
  | PyDict [] => Return (DBytes "")
  | PyDict (_ :: _) => Raise AttributeError
  end.

(** [f"{domain}"] *)
Definition format_domain (d : domain) : string :=
  match d with
  | DStr s => s
  | DBytes b => ("b'" ++ b ++ "'")%string
  end.

(* ===================================================================== *)
(** ** Insertion-ordered dictionaries and [defaultdict] *)
(* ===================================================================== *)

Module ODict.
Section odict.
Context {K V : Type} `{EqDecision K}.

Definition t := list (K * V).

Fixpoint lookup (d : t) (k : K) : option V :=
  match d with
  | [] => None
  | (k', v) :: r => if decide (k' = k) then Some v else lookup r k
  end.

(** [d[k] = v]: an existing key keeps its place, a new key goes last. *)
Fixpoint set (d : t) (k : K) (v : V) : t :=
  match d with
  | [] => [(k, v)]
  | (k', v') :: r =>
      if decide (k' = k) then (k', v) :: r else (k', v') :: set r k v
  end.

Definition keys (d : t) : list K := d.*1.

(** [d[k]] on a [defaultdict]: a missing key is first inserted with
    the value of the default factory. *)
Definition getitem_default (default : V) (d : t) (k : K) : V * t :=
  match lookup d k with
  | Some v => (v, d)
  | None => (default, set d k default)
  end.

End odict.
Arguments t : clear implicits.
End ODict.

(* ===================================================================== *)
(** ** The state of [monitor_endpoints] and its monad *)
(* ===================================================================== *)

(** The inner dictionary [{'up': _, 'down': _}]. *)
Record stats := { up : Z; down : Z }.

(** What the loop does to the outside: lines printed, and sleeps. *)
Inductive event :=
| Printed (line : string)
| Slept (seconds : Z).

Record monitor_state := {
  domain_stats : ODict.t domain stats;
  domain_totals : ODict.t domain Z;
  output : list event;            (* oldest first *)
  probes : nat                    (* probes issued so far *)
}.

Definition with_stats (f : ODict.t domain stats -> ODict.t domain stats)
    (st : monitor_state) : monitor_state :=
  {| domain_stats := f (domain_stats st); domain_totals := domain_totals st;
     output := output st; probes := probes st |}.

Definition with_totals (f : ODict.t domain Z -> ODict.t domain Z)
    (st : monitor_state) : monitor_state :=
  {| domain_stats := domain_stats st; domain_totals := f (domain_totals st);
     output := output st; probes := probes st |}.

Definition emit (e : event) (st : monitor_state) : monitor_state :=
  {| domain_stats := domain_stats st; domain_totals := domain_totals st;
     output := output st ++ [e]; probes := probes st |}.

Definition count_probe (st : monitor_state) : monitor_state :=
  {| domain_stats := domain_stats st; domain_totals := domain_totals st;
     output := output st; probes := S (probes st) |}.

Definition emit_all (es : list event) (st : monitor_state) : monitor_state :=
  {| domain_stats := domain_stats st; domain_totals := domain_totals st;
     output := output st ++ es; probes := probes st |}.

(** A computation reads and writes the state and may raise; the state
    that a raising computation leaves behind stays as it is. *)
Definition M (A : Type) : Type := monitor_state -> result A * monitor_state.

Definition ret {A} (a : A) : M A := fun st => (Return a, st).

Definition bind {A B} (c : M A) (k : A -> M B) : M B :=
  fun st =>
    match c st with
    | (Return a, st') => k a st'
    | (Raise e, st') => (Raise e, st')
    end.

Definition lift {A} (r : result A) : M A := fun st => (r, st).

Definition modify (f : monitor_state -> monitor_state) : M unit :=
  fun st => (Return tt, f st).

Definition gets {A} (f : monitor_state -> A) : M A :=
  fun st => (Return (f st), st).

Declare Scope py_scope.
Delimit Scope py_scope with py.
Notation "x <- c ;; k" := (bind c (fun x => k))
  (at level 100, c at next level, right associativity) : py_scope.
Notation "c ;;; k" := (bind c (fun _ => k))
  (at level 100, right associativity) : py_scope.
#[local] Open Scope py_scope.

(** [for x in l: body(x)] *)
Fixpoint for_each {A} (l : list A) (body : A -> M unit) : M unit :=
  match l with
  | [] => ret tt
  | x :: r => body x ;;; for_each r body
  end.

(* ===================================================================== *)
(** ** The domain aggregator: lines 106-110 *)
(* ===================================================================== *)

(** the default factories of the two [defaultdict]s *)
Definition new_stats : stats := {| up := 0; down := 0 |}.
Definition new_total : Z := 0.

(** [domain_totals[domain] += 1] *)
Definition incr_total (d : domain) (totals : ODict.t domain Z)
    : ODict.t domain Z :=
  let '(n, totals') := ODict.getitem_default new_total totals d in
  ODict.set totals' d (n + 1).

(** [domain_stats[domain]['up'] += 1] *)
Definition incr_up (d : domain) (sts : ODict.t domain stats)
    : ODict.t domain stats :=
  let '(s, sts') := ODict.getitem_default new_stats sts d in
  ODict.set sts' d {| up := up s + 1; down := down s |}.

(** [domain_stats[domain]['down'] += 1] *)
Definition incr_down (d : domain) (sts : ODict.t domain stats)
    : ODict.t domain stats :=
  let '(s, sts') := ODict.getitem_default new_stats sts d in
  ODict.set sts' d {| up := up s; down := down s + 1 |}.

(** The three statements that record one outcome. *)
Definition record_outcome (d : domain) (status : pyval)
    (st : monitor_state) : monitor_state :=
  let st1 := with_totals (incr_total d) st in
  if decide (status = PyStr "UP") then with_stats (incr_up d) st1
  else with_stats (incr_down d) st1.

(* ===================================================================== *)
(** ** The report: lines 113-116 *)
(* ===================================================================== *)

(** [a / b] on integers *)
Definition truediv (a b : Z) : result Q :=
  if b =? 0 then Raise ZeroDivisionError
  else Return (if 0 <? b then Qmake a (Z.to_pos b)
               else Qmake (- a) (Z.to_pos (- b))).

(** [round(x)]: the nearest integer, a tie going to the even one. *)
Definition py_round (x : Q) : Z :=
  let n := Qnum x in
  let d := Zpos (Qden x) in
  let q := n / d in
  let r := n mod d in
  match 2 * r ?= d with
  | Lt => q
  | Gt => q + 1
  | Eq => if Z.even q then q else q + 1
  end.

(** [(100 * stats['up'] / total_count) if total_count else 0] *)
Definition availability (s : stats) (total_count : Z) : result Q :=
  if total_count =? 0 then Return (0 # 1)%Q
  else truediv (100 * up s) total_count.

Definition report_line (d : domain) (percent : Z) : string :=
  (format_domain d ++ " has " ++ pretty percent
   ++ "% availability percentage")%string.

(** [total_count = domain_totals[domain]], a [defaultdict] access *)
Definition read_total (d : domain) : M Z :=
  fun st =>
    let '(n, totals') :=
      ODict.getitem_default new_total (domain_totals st) d in
    (Return n, with_totals (fun _ => totals') st).

Definition report_domain (item : domain * stats) : M unit :=
  let '(d, s) := item in
  total_count <- read_total d ;;
  a <- lift (availability s total_count) ;;
  modify (emit (Printed (report_line d (py_round a)))).

Definition report : M unit :=
  items <- gets domain_stats ;;
  for_each items report_domain.

(* ===================================================================== *)
(** ** The monitor loop *)
(* ===================================================================== *)

(** The oracle: the environment of the n-th probe of the run. *)
Definition world := nat -> probe_world.

(** [status = check_endpoint(endpoint, session)], consuming one probe of
    the oracle *)
Definition probe (W : world) (s : session) (e : endpoint) : M pyval :=
  fun st =>
    (check_endpoint e s (W (probes st)), count_probe st).

(** The body of [for endpoint in endpoints]. *)
Definition probe_and_record (W : world) (s : session) (e : endpoint)
    : M unit :=
  url <- lift (ep_getitem e "url") ;;
  status <- probe W s e ;;
  d <- lift (urlparse_netloc url) ;;
  modify (record_outcome d status).

(** One iteration of [while True]. *)
Definition cycle (W : world) (s : session) (endpoints : list endpoint)
    : M unit :=
  for_each endpoints (probe_and_record W s) ;;;
  report ;;;
  modify (emit (Slept 15)).

(** [n] iterations of the loop, which has no exit of its own. *)
Fixpoint loop (n : nat) (W : world) (s : session)
    (endpoints : list endpoint) : M unit :=
  match n with
  | O => ret tt
  | S n' => cycle W s endpoints ;;; loop n' W s endpoints
  end.

Definition initial_state : monitor_state :=
  {| domain_stats := []; domain_totals := []; output := []; probes := 0 |}.

(** [monitor_endpoints(endpoints)], observed after [n] iterations. *)
Definition monitor_endpoints (n : nat) (W : world)
    (endpoints : list endpoint) : result unit * monitor_state :=
  loop n W create_session endpoints initial_state.

(* ===================================================================== *)
(** ** Views of the aggregator, histories, reachable states *)
(* ===================================================================== *)

(** The counters of a domain; a domain that is not in the dictionaries
    has counted nothing. *)
Definition total_of (st : monitor_state) (d : domain) : Z :=
  default 0 (ODict.lookup (domain_totals st) d).

Definition up_of (st : monitor_state) (d : domain) : Z :=
  default 0 (up <$> ODict.lookup (domain_stats st) d).

Definition down_of (st : monitor_state) (d : domain) : Z :=
  default 0 (down <$> ODict.lookup (domain_stats st) d).

(** The domains the aggregator has seen, in the order it first saw them. *)
Definition domains (st : monitor_state) : list domain :=
  ODict.keys (domain_stats st).

(** Recording a list of outcomes, oldest first. *)
Definition replay (h : list (domain * pyval)) (st : monitor_state)
    : monitor_state :=
  foldl (fun st r => record_outcome r.1 r.2 st) st h.

(** What one endpoint contributes in a cycle that reaches line 106: the
    oracle is consulted for one probe, then the outcome is recorded. *)
Definition record_step (st : monitor_state) (r : domain * pyval)
    : monitor_state :=
  record_outcome r.1 r.2 (count_probe st).

(** The record that endpoint [e] produces when its probe is the [k]-th
    of the run. *)
Definition probe_record (W : world) (s : session) (e : endpoint) (k : nat)
    : result (domain * pyval) :=
  match ep_getitem e "url" with
  | Raise x => Raise x
  | Return url =>
      match check_endpoint e s (W k) with
      | Raise x => Raise x
      | Return status =>
          match urlparse_netloc url with
          | Raise x => Raise x
          | Return d => Return (d, status)
          end
      end
  end.

(** The records of a cycle over [endpoints] whose first probe is the
    [k]-th of the run: one per endpoint, in the order of the list. *)
Fixpoint cycle_records (W : world) (s : session) (endpoints : list endpoint)
    (k : nat) : result (list (domain * pyval)) :=
  match endpoints with
  | [] => Return []
  | e :: rest =>
      match probe_record W s e k with
      | Raise x => Raise x
      | Return r =>
          match cycle_records W s rest (S k) with
          | Raise x => Raise x
          | Return rs => Return (r :: rs)
          end
      end
  end.

(** How many outcomes of a history belong to a domain, and how many of
    them are ['UP']. *)
Fixpoint count_domain (d : domain) (h : list (domain * pyval)) : Z :=
  match h with
  | [] => 0
  | r :: h' => (if decide (r.1 = d) then 1 else 0) + count_domain d h'
  end.

Fixpoint count_up (d : domain) (h : list (domain * pyval)) : Z :=
  match h with
  | [] => 0
  | r :: h' =>
      (if decide (r.1 = d /\ r.2 = PyStr "UP") then 1 else 0) + count_up d h'
  end.

(** [steps st st']: the monitor gets from [st] to [st'] by the four
    state-changing steps of the loop.  The [defaultdict] read of the
    report happens only for a key that the report iterates. *)
Inductive steps (st : monitor_state) : monitor_state -> Prop :=
| steps_refl : steps st st
| steps_record d status st' :
    steps st st' -> steps st (record_outcome d status st')
| steps_probe st' :
    steps st st' -> steps st (count_probe st')
| steps_emit e st' :
    steps st st' -> steps st (emit e st')
| steps_read d st' :
    steps st st' -> d ∈ domains st' -> steps st (read_total d st').2.

(** The states the monitor can be in between two statements of the loop. *)
Definition reachable (st : monitor_state) : Prop := steps initial_state st.

(** The invariant of the two dictionaries. *)
Record agg_inv (st : monitor_state) : Prop := {
  inv_keys : ODict.keys (domain_stats st) = ODict.keys (domain_totals st);
  inv_nodup : NoDup (ODict.keys (domain_stats st));
  inv_counts : forall d s,
    ODict.lookup (domain_stats st) d = Some s ->
    ODict.lookup (domain_totals st) d = Some (up s + down s)
    /\ 0 <= up s /\ 0 <= down s /\ 1 <= up s + down s
}.

(* ===================================================================== *)
(** ** The report as the specification words it *)
(* ===================================================================== *)

(** Following the specification: [round(100 * upCount / totalCount)] if
    [totalCount > 0], else [0]. *)
Definition availabilityPercent_spec (upCount totalCount : Z) : Z :=
  if 0 <? totalCount
  then py_round (Qmake (100 * upCount) (Z.to_pos totalCount))
  else 0.

(** The line of one domain, from the current counters. *)
Definition line_of (st : monitor_state) (item : domain * stats) : event :=
  Printed (report_line item.1
           (availabilityPercent_spec (up item.2) (total_of st item.1))).

(** One line per domain of the aggregator, in the order of the
    dictionary. *)
Definition report_lines (st : monitor_state) : list event :=
  line_of st <$> domain_stats st.

(* ===================================================================== *)
(** ** Well-formed descriptors and transports *)
(* ===================================================================== *)



(** The outcome that the two conditions of the classification give. *)
Definition classify (status_code : Z) (w : probe_world) : pyval :=
  if status_2xx status_code && Qltb (latency_ms w) 500
  then PyStr "UP" else PyStr "DOWN".

(** Sample environments. *)
Definition answering (status_code : Z) (seconds : Q) : probe_world :=
  {| time_start := 0; respond := fun _ => Response status_code;
     time_end := seconds |}.


(** An endpoint that answers UP, DOWN, UP, ... *)
Definition alternating : world :=
  fun k => if Nat.even k then answering 200 (50 # 1000)
           else answering 503 (50 # 1000).

Definition simple_endpoint (url : string) : endpoint :=
  {[ "url" := PyStr url ]}.

(** A descriptor loaded from YAML with [method: null]. *)
Definition null_method_endpoint (url : string) : endpoint :=
  <[ "method" := PyNone ]> (simple_endpoint url).

(* ===================================================================== *)
(** ** The key of an endpoint, sums of counters, equivalent oracles *)
(* ===================================================================== *)

(** The aggregator key of an endpoint: [urlparse(endpoint['url']).netloc]. *)
Definition endpoint_netloc (e : endpoint) : result domain :=
  match ep_getitem e "url" with
  | Return url => urlparse_netloc url
  | Raise x => Raise x
  end.

#[global] Instance result_eq_dec {A} `{EqDecision A} : EqDecision (result A).
Proof. solve_decision. Defined.

(** How many endpoints of a list have the key [d]. *)
Fixpoint count_endpoints (d : domain) (eps : list endpoint) : Z :=
  match eps with
  | [] => 0
  | e :: rest =>
      (if decide (endpoint_netloc e = Return d) then 1 else 0)
      + count_endpoints d rest
  end.

(** [sum(domain_totals.values())] *)
Definition sum_totals (st : monitor_state) : Z :=
  foldr Z.add 0 (domain_totals st).*2.

(** Two oracles that show the same clock and give the same answer to
    every request that has a timeout of one second and a session without
    retries. *)
Definition agree_on_probes (W W' : world) : Prop :=
  forall k,
    time_start (W k) = time_start (W' k)
    /\ time_end (W k) = time_end (W' k)
    /\ forall rq,
         rq_timeout rq = 1 -> max_retries (rq_session rq) = 0%nat ->
         respond (W k) rq = respond (W' k) rq.

(** An oracle that answers like [W] the requests with a timeout of one
    second and a session without retries, and fails any other request. *)
Definition only_single_attempts (W : world) : world :=
  fun k =>
    {| time_start := time_start (W k);
       respond := fun rq =>
         if (rq_timeout rq =? 1) && (max_retries (rq_session rq) =? 0)%nat
         then respond (W k) rq else NetRaise ValueError;
       time_end := time_end (W k) |}.




(** The keys that [check_endpoint] and the loop read in a descriptor. *)
Definition descriptor_keys : list string :=
  ["url"; "method"; "headers"; "body"].

(* ===================================================================== *)
(** ** [load_endpoints] and [main] *)
(* ===================================================================== *)

(** The exceptions that opening and parsing the configuration file can
    raise: the two that [load_endpoints] handles, and any other one, by
    its name. *)
Inductive load_exn :=
| FileNotFoundError
| YAMLError (text : string)
| OtherLoadError (name : string).

Inductive io (A : Type) :=
| IoOk (a : A)
| IoRaise (e : load_exn).
Arguments IoOk {A} a.
Arguments IoRaise {A} e.

(** What [yaml.safe_load] returns, for the documents of the annotated
    return type, and [None], which it returns for an empty file. *)
Inductive document :=
| DocNone
| DocEndpoints (l : list endpoint).

(** The file system and the YAML parser. *)
Record host := {
  open_read : string -> io string;
  yaml_safe_load : string -> io document
}.

(** How a call of [load_endpoints] ends: it returns, it leaves the
    process through [exit], or an exception goes through it. *)
Inductive load_outcome :=
| LoadReturn (d : document)
| LoadExit (code : Z)
| LoadRaise (e : load_exn).

Definition not_found_message (config_path : string) : string :=
  ("Error: The file at " ++ config_path ++ " was not found.")%string.

Definition yaml_error_message (text : string) : string :=
  ("Error parsing the YAML file: " ++ text)%string.

(** [load_endpoints]: the lines it prints, and how it ends. *)
Definition load_endpoints (h : host) (config_path : string)
    : list string * load_outcome :=
  let attempt :=
    match open_read h config_path with
    | IoOk text => yaml_safe_load h text
    | IoRaise e => IoRaise e
    end in
  match attempt with
  | IoOk d => ([], LoadReturn d)
  | IoRaise FileNotFoundError =>
      ([not_found_message config_path], LoadExit 1)
  | IoRaise (YAMLError text) =>
      ([yaml_error_message text], LoadExit 1)
  | IoRaise e => ([], LoadRaise e)
  end.

(** [not endpoints] *)
Definition document_falsy (d : document) : bool :=
  match d with
  | DocNone => true
  | DocEndpoints [] => true
  | DocEndpoints (_ :: _) => false
  end.

(** The list that [monitor_endpoints] iterates, and [len(endpoints)]. *)
Definition document_endpoints (d : document) : list endpoint :=
  match d with
  | DocNone => []
  | DocEndpoints l => l
  end.

Definition usage_message : string :=
  "Usage: python health_check.py <config_file_path>".

Definition no_endpoints_message : string := "No endpoints to monitor.".

Definition monitoring_message (count : nat) : string :=
  ("Monitoring " ++ pretty count
   ++ " endpoints in an interval of 15 seconds... Press Ctrl+C to stop.")%string.

(** How the process ends or goes on: it exits with a status, an
    exception of the loader ends it, or it is in the monitor loop. *)
Inductive process :=
| Exited (printed : list string) (code : Z)
| Crashed (printed : list string) (e : load_exn)
| Monitoring (printed : list string) (run : result unit * monitor_state).

(** [main], with [sys.argv] and the monitor loop observed after [n]
    iterations. *)
Definition main (h : host) (argv : list string) (n : nat) (W : world)
    : process :=
  if negb (length argv =? 2)%nat then Exited [usage_message] 1
  else
    let config_file_path := nth 1 argv "" in
    match load_endpoints h config_file_path with
    | (printed, LoadExit code) => Exited printed code
    | (printed, LoadRaise e) => Crashed printed e
    | (printed, LoadReturn endpoints) =>
        if document_falsy endpoints
        then Exited (printed ++ [no_endpoints_message]) 1
        else Monitoring
               (printed
                ++ [monitoring_message
                      (length (document_endpoints endpoints))])
               (monitor_endpoints n W (document_endpoints endpoints))
    end.

(** A host with one configuration file. *)
Definition single_file_host (path : string) (d : document) : host :=
  {| open_read := fun p =>
       if decide (p = path) then IoOk "" else IoRaise FileNotFoundError;
     yaml_safe_load := fun _ => IoOk d |}.

(* ===================================================================== *)
(** ** Facts about ordered dictionaries *)
(* ===================================================================== *)

Module ODictFacts.
Section facts.
Context {K V : Type} `{EqDecision K}.
Implicit Types (d : ODict.t K V) (k : K) (v : V).

Lemma lookup_set d k v k' :
  ODict.lookup (ODict.set d k v) k'
  = if decide (k = k') then Some v else ODict.lookup d k'.
Proof.
  induction d as [|[k0 v0] d IH]; simpl.
  - repeat case_decide; congruence.
  - destruct (decide (k0 = k)) as [->|Hne]; simpl.
    + repeat case_decide; congruence.
    + rewrite IH. repeat case_decide; congruence.
Qed.

Lemma lookup_None d k : ODict.lookup d k = None <-> k ∉ ODict.keys d.
Proof.
  unfold ODict.keys. induction d as [|[k0 v0] d IH]; simpl.
  - split; [intros _; apply not_elem_of_nil | done].
  - rewrite not_elem_of_cons. case_decide; subst.
    + split; [done | intros [? _]; done].
    + rewrite IH. split; [intros ?; split; [congruence | done] | intros [_ ?]; done].
Qed.

Lemma lookup_Some_keys d k v : ODict.lookup d k = Some v -> k ∈ ODict.keys d.
Proof.
  intros Hl. destruct (decide (k ∈ ODict.keys d)) as [|Hn]; [done|].
  apply lookup_None in Hn. congruence.
Qed.

Lemma lookup_is_Some d k : is_Some (ODict.lookup d k) <-> k ∈ ODict.keys d.
Proof.
  split.
  - intros [v Hv]. by eapply lookup_Some_keys.
  - intros Hin. destruct (ODict.lookup d k) eqn:E; [by eexists|].
    apply lookup_None in E. done.
Qed.

Lemma set_present d k v :
  k ∈ ODict.keys d -> ODict.keys (ODict.set d k v) = ODict.keys d.
Proof.
  unfold ODict.keys. induction d as [|[k0 v0] d IH]; simpl.
  - intros Hin. by apply elem_of_nil in Hin.
  - intros Hin. destruct (decide (k0 = k)) as [->|Hne]; simpl; [done|].
    apply elem_of_cons in Hin as [->|Hin]; [done|]. f_equal. by apply IH.
Qed.

Lemma set_absent d k v :
  k ∉ ODict.keys d -> ODict.keys (ODict.set d k v) = ODict.keys d ++ [k].
Proof.
  unfold ODict.keys. induction d as [|[k0 v0] d IH]; simpl; [done|].
  rewrite not_elem_of_cons. intros [Hne Hin].
  destruct (decide (k0 = k)); [congruence|]. simpl. f_equal. by apply IH.
Qed.

Lemma elem_of_keys_set d k v k' :
  k' ∈ ODict.keys (ODict.set d k v) <-> k' = k \/ k' ∈ ODict.keys d.
Proof.
  destruct (decide (k ∈ ODict.keys d)) as [Hin|Hin].
  - rewrite set_present by done. split; [auto | intros [->|?]; done].
  - rewrite set_absent by done. rewrite elem_of_app, list_elem_of_singleton.
    tauto.
Qed.

Lemma set_NoDup d k v : NoDup (ODict.keys d) -> NoDup (ODict.keys (ODict.set d k v)).
Proof.
  intros Hnd. destruct (decide (k ∈ ODict.keys d)) as [Hin|Hin].
  - by rewrite set_present.
  - rewrite set_absent by done. apply NoDup_app. split; [done|].
    split; [|apply NoDup_singleton].
    intros x Hx Hx'. apply list_elem_of_singleton in Hx'. by subst.
Qed.

Lemma set_set d k v v' : ODict.set (ODict.set d k v) k v' = ODict.set d k v'.
Proof.
  induction d as [|[k0 v0] d IH]; simpl.
  - by rewrite decide_True.
  - destruct (decide (k0 = k)) as [->|Hne]; simpl.
    + by rewrite decide_True.
    + rewrite decide_False by done. by rewrite IH.
Qed.

(** Reading a present key of a [defaultdict] changes nothing. *)
Lemma getitem_default_present default d k :
  k ∈ ODict.keys d ->
  exists v, ODict.lookup d k = Some v
            /\ ODict.getitem_default default d k = (v, d).
Proof.
  intros Hin. apply lookup_is_Some in Hin as [v Hv].
  exists v. unfold ODict.getitem_default. by rewrite Hv.
Qed.

(** [d[k] = f(d[k])] on a [defaultdict] is one [set]. *)
Lemma update_default (dflt : V) (f : V -> V) d k :
  (let '(v, d') := ODict.getitem_default dflt d k in ODict.set d' k (f v))
  = ODict.set d k (f (default dflt (ODict.lookup d k))).
Proof.
  unfold ODict.getitem_default.
  destruct (ODict.lookup d k); [done|]. apply set_set.
Qed.

End facts.
End ODictFacts.

(* ===================================================================== *)
(** ** Facts about the aggregator *)
(* ===================================================================== *)

Section aggregator_facts.
Import ODictFacts.

Lemma incr_total_set d totals :
  incr_total d totals
  = ODict.set totals d (default 0 (ODict.lookup totals d) + 1).
Proof. apply (update_default new_total (fun n => n + 1)). Qed.

Lemma incr_up_set d sts :
  incr_up d sts
  = ODict.set sts d
      {| up := up (default new_stats (ODict.lookup sts d)) + 1;
         down := down (default new_stats (ODict.lookup sts d)) |}.
Proof.
  apply (update_default new_stats
           (fun s => {| up := up s + 1; down := down s |})).
Qed.

Lemma incr_down_set d sts :
  incr_down d sts
  = ODict.set sts d
      {| up := up (default new_stats (ODict.lookup sts d));
         down := down (default new_stats (ODict.lookup sts d)) + 1 |}.
Proof.
  apply (update_default new_stats
           (fun s => {| up := up s; down := down s + 1 |})).
Qed.

Lemma record_outcome_totals d v st :
  domain_totals (record_outcome d v st)
  = ODict.set (domain_totals st) d (total_of st d + 1).
Proof.
  unfold record_outcome, total_of.
  case_decide; simpl; apply incr_total_set.
Qed.

Lemma record_outcome_stats d v st :
  domain_stats (record_outcome d v st)
  = ODict.set (domain_stats st) d
      {| up := up_of st d + (if decide (v = PyStr "UP") then 1 else 0);
         down := down_of st d + (if decide (v = PyStr "UP") then 0 else 1) |}.
Proof.
  unfold record_outcome, up_of, down_of.
  case_decide; simpl.
  - rewrite incr_up_set. destruct (ODict.lookup _ d); simpl; do 2 f_equal; lia.
  - rewrite incr_down_set. destruct (ODict.lookup _ d); simpl; do 2 f_equal; lia.
Qed.

Lemma record_outcome_output d v st :
  output (record_outcome d v st) = output st.
Proof. unfold record_outcome. by case_decide. Qed.

Lemma record_outcome_probes d v st :
  probes (record_outcome d v st) = probes st.
Proof. unfold record_outcome. by case_decide. Qed.

Lemma total_of_record d v st d' :
  total_of (record_outcome d v st) d'
  = total_of st d' + (if decide (d = d') then 1 else 0).
Proof.
  unfold total_of at 1. rewrite record_outcome_totals, lookup_set.
  case_decide; subst; simpl; [done|]. unfold total_of. lia.
Qed.

Lemma up_of_record d v st d' :
  up_of (record_outcome d v st) d'
  = up_of st d' + (if decide (d = d' /\ v = PyStr "UP") then 1 else 0).
Proof.
  unfold up_of at 1. rewrite record_outcome_stats, lookup_set.
  destruct (decide (d = d')) as [->|Hne]; simpl.
  - destruct (decide (v = PyStr "UP")).
    + by rewrite decide_True.
    + rewrite decide_False by tauto. done.
  - rewrite decide_False by tauto. unfold up_of. lia.
Qed.

Lemma down_of_record d v st d' :
  down_of (record_outcome d v st) d'
  = down_of st d' + (if decide (d = d' /\ v <> PyStr "UP") then 1 else 0).
Proof.
  unfold down_of at 1. rewrite record_outcome_stats, lookup_set.
  destruct (decide (d = d')) as [->|Hne]; simpl.
  - destruct (decide (v = PyStr "UP")).
    + rewrite decide_False by tauto. done.
    + by rewrite decide_True.
  - rewrite decide_False by tauto. unfold down_of. lia.
Qed.

Lemma domains_record d v st d' :
  d' ∈ domains (record_outcome d v st) <-> d' = d \/ d' ∈ domains st.
Proof.
  unfold domains. rewrite record_outcome_stats. apply elem_of_keys_set.
Qed.

(** Counters of the inert steps. *)
Lemma total_of_count_probe st d : total_of (count_probe st) d = total_of st d.
Proof. done. Qed.

Lemma up_of_count_probe st d : up_of (count_probe st) d = up_of st d.
Proof. done. Qed.

Lemma total_of_emit e st d : total_of (emit e st) d = total_of st d.
Proof. done. Qed.

Lemma up_of_emit e st d : up_of (emit e st) d = up_of st d.
Proof. done. Qed.

(** The [defaultdict] read of the report: on a key that is present it
    changes nothing. *)
Lemma read_total_present d st :
  d ∈ ODict.keys (domain_totals st) ->
  read_total d st = (Return (total_of st d), st).
Proof.
  intros Hin. unfold read_total, total_of.
  destruct (getitem_default_present new_total _ _ Hin) as (v & Hv & ->).
  rewrite Hv. simpl. by destruct st.
Qed.

(** In any state it leaves the counters as they are and returns the
    total. *)
Lemma read_total_value d st : (read_total d st).1 = Return (total_of st d).
Proof.
  unfold read_total, total_of, ODict.getitem_default.
  by destruct (ODict.lookup _ d).
Qed.

Lemma read_total_stats d st :
  domain_stats (read_total d st).2 = domain_stats st.
Proof.
  unfold read_total, ODict.getitem_default.
  by destruct (ODict.lookup _ d).
Qed.

Lemma read_total_output d st : output (read_total d st).2 = output st.
Proof.
  unfold read_total, ODict.getitem_default.
  by destruct (ODict.lookup _ d).
Qed.

Lemma read_total_probes d st : probes (read_total d st).2 = probes st.
Proof.
  unfold read_total, ODict.getitem_default.
  by destruct (ODict.lookup _ d).
Qed.

Lemma read_total_total_of d st d' :
  total_of (read_total d st).2 d' = total_of st d'.
Proof.
  unfold read_total, total_of, ODict.getitem_default.
  destruct (ODict.lookup (domain_totals st) d) eqn:E; simpl; [done|].
  rewrite lookup_set. case_decide; subst; [by rewrite E | done].
Qed.

End aggregator_facts.

(* ===================================================================== *)
(** ** The invariant of the aggregator *)
(* ===================================================================== *)

Section invariant.
Import ODictFacts.

Lemma agg_inv_initial : agg_inv initial_state.
Proof.
  split; simpl; [done | apply NoDup_nil_2 | intros d s Hs; discriminate].
Qed.

Lemma agg_inv_views st d :
  agg_inv st ->
  total_of st d = up_of st d + down_of st d
  /\ 0 <= up_of st d /\ 0 <= down_of st d.
Proof.
  intros [Hk _ Hc]. unfold total_of, up_of, down_of.
  destruct (ODict.lookup (domain_stats st) d) as [s|] eqn:E; simpl.
  - destruct (Hc d s E) as (-> & ? & ? & _). simpl. lia.
  - apply lookup_None in E. rewrite Hk in E. apply lookup_None in E.
    rewrite E. simpl. lia.
Qed.

Lemma agg_inv_record d v st : agg_inv st -> agg_inv (record_outcome d v st).
Proof.
  intros Hinv. pose proof Hinv as [Hk Hnd Hc]. split.
  - rewrite record_outcome_stats, record_outcome_totals.
    destruct (decide (d ∈ ODict.keys (domain_stats st))) as [Hin|Hin].
    + rewrite !set_present; [done | by rewrite <- Hk | done].
    + rewrite !set_absent; [by rewrite Hk | by rewrite <- Hk | done].
  - rewrite record_outcome_stats. by apply set_NoDup.
  - intros d0 s. rewrite record_outcome_stats, record_outcome_totals.
    rewrite !lookup_set.
    destruct (agg_inv_views st d Hinv) as (Ht & Hu & Hd).
    case_decide; subst.
    + intros [= <-]. simpl. case_decide; (split; [f_equal; lia | lia]).
    + apply Hc.
Qed.

Lemma agg_inv_count_probe st : agg_inv st -> agg_inv (count_probe st).
Proof. by intros [? ? ?]. Qed.

Lemma agg_inv_emit e st : agg_inv st -> agg_inv (emit e st).
Proof. by intros [? ? ?]. Qed.

Lemma read_total_inv d st :
  agg_inv st -> d ∈ domains st ->
  read_total d st = (Return (total_of st d), st).
Proof.
  intros [Hk _ _] Hin. apply read_total_present. by rewrite <- Hk.
Qed.

Lemma steps_inv st st' : steps st st' -> agg_inv st -> agg_inv st'.
Proof.
  induction 1 as [|d v st' _ IH|st' _ IH|e st' _ IH|d st' _ IH Hin];
    intros Hinv.
  - done.
  - apply agg_inv_record; auto.
  - apply agg_inv_count_probe; auto.
  - apply agg_inv_emit; auto.
  - rewrite read_total_inv; auto.
Qed.

Lemma reachable_inv st : reachable st -> agg_inv st.
Proof. intros Hr. eapply steps_inv; [done | apply agg_inv_initial]. Qed.

Lemma steps_trans st1 st2 st3 : steps st1 st2 -> steps st2 st3 -> steps st1 st3.
Proof.
  intros H12 H23. induction H23; [done | by constructor ..].
Qed.

Lemma replay_steps h st : steps st (replay h st).
Proof.
  revert st. induction h as [|[d v] h IH]; intros st; [constructor|].
  simpl. eapply steps_trans; [|apply IH]. do 2 constructor.
Qed.

Lemma replay_reachable h st : reachable st -> reachable (replay h st).
Proof. intros Hr. eapply steps_trans; [done | apply replay_steps]. Qed.

(** No step takes anything from a counter. *)
Lemma steps_monotone st st' d :
  steps st st' ->
  total_of st d <= total_of st' d /\ up_of st d <= up_of st' d
  /\ down_of st d <= down_of st' d.
Proof.
  induction 1 as [|d0 v st' _ IH|st' _ IH|e st' _ IH|d0 st' _ IH Hin].
  - lia.
  - rewrite total_of_record, up_of_record, down_of_record.
    repeat case_decide; lia.
  - done.
  - done.
  - rewrite read_total_total_of. unfold up_of, down_of.
    rewrite read_total_stats. done.
Qed.

Lemma steps_domains st st' d : steps st st' -> d ∈ domains st -> d ∈ domains st'.
Proof.
  induction 1 as [|d0 v st' _ IH|st' _ IH|e st' _ IH|d0 st' _ IH Hin];
    intros Hd; auto.
  - apply domains_record. auto.
  - unfold domains. rewrite read_total_stats. by apply IH.
Qed.

End invariant.

(* ===================================================================== *)
(** ** Rounding and the availability expression *)
(* ===================================================================== *)

Section rounding.

(** [py_round] returns a nearest integer. *)
Lemma py_round_nearest n d :
  - Zpos d <= 2 * (n - py_round (Qmake n d) * Zpos d) <= Zpos d.
Proof.
  unfold py_round. simpl.
  pose proof (Z.div_mod n (Zpos d) ltac:(lia)) as Hdm.
  pose proof (Z.mod_pos_bound n (Zpos d) ltac:(lia)) as Hb.
  destruct (Z.compare_spec (2 * (n mod Zpos d)) (Zpos d));
    [destruct (Z.even _) | |]; nia.
Qed.

(** On a tie it returns the even one. *)
Lemma py_round_tie n d :
  2 * (n - py_round (Qmake n d) * Zpos d) = Zpos d
  \/ 2 * (n - py_round (Qmake n d) * Zpos d) = - Zpos d ->
  Z.even (py_round (Qmake n d)) = true.
Proof.
  unfold py_round. simpl.
  pose proof (Z.div_mod n (Zpos d) ltac:(lia)) as Hdm.
  pose proof (Z.mod_pos_bound n (Zpos d) ltac:(lia)) as Hb.
  destruct (Z.compare_spec (2 * (n mod Zpos d)) (Zpos d)) as [He|Hl|Hg].
  - intros _. destruct (Z.even (n / Zpos d)) eqn:Ev; [done|].
    rewrite Z.even_add, Ev. done.
  - intros [Ht|Ht]; nia.
  - intros [Ht|Ht]; nia.
Qed.

(** The division of the report is guarded: the expression never
    raises, and on a total that is not negative it is the value of the
    specification. *)
Lemma availability_returns s total_count :
  exists a, availability s total_count = Return a.
Proof.
  unfold availability, truediv.
  destruct (total_count =? 0) eqn:E; by eexists.
Qed.

Lemma availability_spec s total_count a :
  0 <= total_count ->
  availability s total_count = Return a ->
  py_round a = availabilityPercent_spec (up s) total_count.
Proof.
  unfold availability, truediv, availabilityPercent_spec. intros Hnn.
  destruct (total_count =? 0) eqn:E.
  - apply Z.eqb_eq in E. subst. intros [= <-]. done.
  - apply Z.eqb_neq in E.
    rewrite (proj2 (Z.ltb_lt 0 total_count)) by lia.
    intros [= <-]. done.
Qed.

End rounding.

(* ===================================================================== *)
(** ** What the report does *)
(* ===================================================================== *)

Section report_facts.

Lemma emit_emit_all e st : emit e st = emit_all [e] st.
Proof. done. Qed.

Lemma emit_all_nil st : emit_all [] st = st.
Proof. destruct st. unfold emit_all. simpl. by rewrite app_nil_r. Qed.

Lemma emit_all_app es1 es2 st :
  emit_all es2 (emit_all es1 st) = emit_all (es1 ++ es2) st.
Proof. unfold emit_all. simpl. by rewrite app_assoc. Qed.

Lemma emit_all_steps es st : steps st (emit_all es st).
Proof.
  induction es as [|e es IH] using rev_ind.
  - rewrite emit_all_nil. constructor.
  - rewrite <- emit_all_app. by apply (steps_emit _ e).
Qed.

(** One iteration of the report loop, from a state whose dictionaries
    agree: one line is printed and nothing else changes. *)
Lemma report_domain_inv st d s :
  agg_inv st -> d ∈ domains st ->
  report_domain (d, s) st = (Return tt, emit (line_of st (d, s)) st).
Proof.
  intros Hinv Hin. unfold report_domain, bind.
  rewrite (read_total_inv d st Hinv Hin).
  destruct (availability_returns s (total_of st d)) as [a Ha].
  unfold lift. rewrite Ha. unfold modify, line_of. simpl.
  rewrite (availability_spec s (total_of st d) a); [done | | done].
  destruct (agg_inv_views st d Hinv). lia.
Qed.

Lemma report_items_inv items st :
  agg_inv st -> (forall item, item ∈ items -> item.1 ∈ domains st) ->
  for_each items report_domain st
  = (Return tt, emit_all (line_of st <$> items) st).
Proof.
  revert st. induction items as [|[d s] items IH]; intros st Hinv Hin.
  - simpl. unfold ret. by rewrite emit_all_nil.
  - cbn [for_each]. unfold bind at 1.
    rewrite report_domain_inv; [|done|apply (Hin (d, s)); left].
    rewrite IH.
    + rewrite emit_emit_all, emit_all_app. done.
    + by apply agg_inv_emit.
    + intros item Hitem. apply (Hin item). by right.
Qed.

(** The report from a state of the monitor: the lines of
    [report_lines] are printed, and nothing else changes. *)
Lemma report_inv st :
  agg_inv st -> report st = (Return tt, emit_all (report_lines st) st).
Proof.
  intros Hinv. unfold report, bind, gets.
  apply report_items_inv; [done|].
  intros [d s] Hitem. unfold domains, ODict.keys. simpl.
  apply list_elem_of_fmap. by exists (d, s).
Qed.

(** In any state at all the report returns: the division cannot
    raise. *)
Lemma report_domain_returns st item :
  (report_domain item st).1 = Return tt.
Proof.
  destruct item as [d s]. unfold report_domain, bind.
  destruct (read_total d st) as [r st1] eqn:E.
  pose proof (read_total_value d st) as Hv. rewrite E in Hv. simpl in Hv.
  subst r. unfold lift.
  destruct (availability_returns s (total_of st d)) as [a ->]. done.
Qed.

Lemma report_items_returns items st :
  (for_each items report_domain st).1 = Return tt.
Proof.
  revert st. induction items as [|item items IH]; intros st; [done|].
  cbn [for_each]. unfold bind at 1.
  pose proof (report_domain_returns st item) as Hr.
  destruct (report_domain item st) as [r st1]. simpl in Hr. subst r.
  apply IH.
Qed.

Lemma report_returns st : (report st).1 = Return tt.
Proof. unfold report, bind, gets. apply report_items_returns. Qed.

(** In any state at all the report leaves [domain_stats] and the value of
    every total as they are. *)
Lemma report_domain_frame st item :
  domain_stats (report_domain item st).2 = domain_stats st
  /\ probes (report_domain item st).2 = probes st
  /\ forall d, total_of (report_domain item st).2 d = total_of st d.
Proof.
  destruct item as [d0 s]. unfold report_domain, bind.
  pose proof (read_total_value d0 st) as Hv.
  pose proof (read_total_stats d0 st) as Hs.
  pose proof (read_total_probes d0 st) as Hp.
  pose proof (read_total_total_of d0 st) as Ht.
  destruct (read_total d0 st) as [r st1]. simpl in Hv, Hs, Hp, Ht. subst r.
  unfold lift.
  destruct (availability_returns s (total_of st d0)) as [a ->].
  unfold modify. simpl. repeat split; [done | done |].
  intros d. rewrite total_of_emit. apply Ht.
Qed.

Lemma report_items_frame items st :
  domain_stats (for_each items report_domain st).2 = domain_stats st
  /\ probes (for_each items report_domain st).2 = probes st
  /\ forall d, total_of (for_each items report_domain st).2 d = total_of st d.
Proof.
  revert st. induction items as [|item items IH]; intros st; [done|].
  cbn [for_each]. unfold bind.
  pose proof (report_domain_returns st item) as Hr.
  destruct (report_domain_frame st item) as (Hs & Hp & Ht).
  destruct (report_domain item st) as [r st1]. simpl in Hr, Hs, Hp, Ht.
  subst r. cbv beta iota. destruct (IH st1) as (Hs' & Hp' & Ht').
  rewrite Hs', Hp', Hs, Hp. repeat split. intros d. by rewrite Ht', Ht.
Qed.

Lemma report_frame st :
  domain_stats (report st).2 = domain_stats st
  /\ probes (report st).2 = probes st
  /\ forall d, total_of (report st).2 d = total_of st d.
Proof. unfold report, bind, gets. apply report_items_frame. Qed.

End report_facts.

(* ===================================================================== *)
(** ** What a cycle and the loop do *)
(* ===================================================================== *)

Section loop_facts.
Variables (W : world) (s : session).

Lemma probe_and_record_return e st r :
  probe_record W s e (probes st) = Return r ->
  probe_and_record W s e st = (Return tt, record_step st r).
Proof.
  unfold probe_record, probe_and_record, bind, lift, probe, modify.
  destruct (ep_getitem e "url") as [url|x]; [|done].
  destruct (check_endpoint e s (W (probes st))) as [status|x]; [|done].
  destruct (urlparse_netloc url) as [d|x]; [|done].
  by intros [= <-].
Qed.

Lemma probe_and_record_raise e st x :
  probe_record W s e (probes st) = Raise x ->
  exists st', probe_and_record W s e st = (Raise x, st')
              /\ (st' = st \/ st' = count_probe st).
Proof.
  unfold probe_record, probe_and_record, bind, lift, probe, modify.
  destruct (ep_getitem e "url") as [url|x0].
  - destruct (check_endpoint e s (W (probes st))) as [status|x1].
    + destruct (urlparse_netloc url) as [d|x2]; [done|].
      intros [= <-]. eauto.
    + intros [= <-]. eauto.
  - intros [= <-]. eauto.
Qed.

Lemma record_step_steps st r : steps st (record_step st r).
Proof. unfold record_step. do 2 constructor. constructor. Qed.

Lemma record_step_probes st r : probes (record_step st r) = S (probes st).
Proof. unfold record_step. by rewrite record_outcome_probes. Qed.

Lemma record_step_output st r : output (record_step st r) = output st.
Proof. unfold record_step. by rewrite record_outcome_output. Qed.

Lemma foldl_record_step_steps rs st : steps st (foldl record_step st rs).
Proof.
  revert st. induction rs as [|r rs IH]; intros st; [constructor|].
  simpl. eapply steps_trans; [apply record_step_steps | apply IH].
Qed.

Lemma foldl_record_step_output rs st :
  output (foldl record_step st rs) = output st.
Proof.
  revert st. induction rs as [|r rs IH]; intros st; [done|].
  simpl. by rewrite IH, record_step_output.
Qed.

Lemma foldl_record_step_probes rs st :
  probes (foldl record_step st rs) = (probes st + length rs)%nat.
Proof.
  revert st. induction rs as [|r rs IH]; intros st; simpl; [lia|].
  rewrite IH, record_step_probes. lia.
Qed.

(** The [for] loop of a cycle in which no probe raises: the records of
    the endpoints are recorded one after the other, in their order. *)
Lemma for_each_records eps st rs :
  cycle_records W s eps (probes st) = Return rs ->
  for_each eps (probe_and_record W s) st
  = (Return tt, foldl record_step st rs).
Proof.
  revert st rs. induction eps as [|e eps IH]; intros st rs; simpl.
  - by intros [= <-].
  - destruct (probe_record W s e (probes st)) as [r|x] eqn:Er; [|done].
    destruct (cycle_records W s eps (S (probes st))) as [rs'|x] eqn:Ers;
      [|done].
    intros [= <-]. unfold bind.
    rewrite (probe_and_record_return e st r Er). simpl.
    apply IH. by rewrite record_step_probes.
Qed.

(** The [for] loop of a cycle in which a probe raises: the exception
    leaves the loop, and nothing has been printed. *)
Lemma for_each_raise eps st x :
  cycle_records W s eps (probes st) = Raise x ->
  exists st', for_each eps (probe_and_record W s) st = (Raise x, st')
              /\ output st' = output st /\ steps st st'.
Proof.
  revert st. induction eps as [|e eps IH]; intros st; simpl; [done|].
  destruct (probe_record W s e (probes st)) as [r|x0] eqn:Er.
  - destruct (cycle_records W s eps (S (probes st))) as [rs'|x1] eqn:Ers;
      [done|].
    intros [= <-]. unfold bind.
    rewrite (probe_and_record_return e st r Er).
    destruct (IH (record_step st r)) as (st' & Hrun & Hout & Hsteps).
    { by rewrite record_step_probes. }
    exists st'. split; [done|]. split.
    + by rewrite Hout, record_step_output.
    + eapply steps_trans; [apply record_step_steps | done].
  - intros [= <-]. unfold bind.
    destruct (probe_and_record_raise e st x0 Er) as (st' & -> & [->| ->]).
    + exists st. repeat split. constructor.
    + exists (count_probe st). repeat split. do 2 constructor.
Qed.

Lemma for_each_steps eps st :
  steps st (for_each eps (probe_and_record W s) st).2.
Proof.
  destruct (cycle_records W s eps (probes st)) as [rs|x] eqn:E.
  - rewrite (for_each_records eps st rs E). apply foldl_record_step_steps.
  - destruct (for_each_raise eps st x E) as (st' & -> & _ & Hs). done.
Qed.

(** A cycle in which no probe raises: every endpoint is recorded, then
    the report of the resulting counters is printed, then the loop
    sleeps. *)
Lemma cycle_return eps st rs :
  agg_inv st ->
  cycle_records W s eps (probes st) = Return rs ->
  cycle W s eps st
  = (Return tt,
     emit (Slept 15)
       (emit_all (report_lines (foldl record_step st rs))
          (foldl record_step st rs))).
Proof.
  intros Hinv Hrs. unfold cycle, bind.
  rewrite (for_each_records eps st rs Hrs).
  rewrite report_inv; [done|].
  eapply steps_inv; [apply foldl_record_step_steps | done].
Qed.

Lemma cycle_raise eps st x :
  cycle_records W s eps (probes st) = Raise x ->
  exists st', cycle W s eps st = (Raise x, st')
              /\ output st' = output st /\ steps st st'.
Proof.
  intros Hrs. unfold cycle, bind.
  destruct (for_each_raise eps st x Hrs) as (st' & -> & Hout & Hs).
  by exists st'.
Qed.

Lemma cycle_steps eps st : agg_inv st -> steps st (cycle W s eps st).2.
Proof.
  intros Hinv.
  destruct (cycle_records W s eps (probes st)) as [rs|x] eqn:E.
  - rewrite (cycle_return eps st rs Hinv E). simpl.
    apply steps_emit. eapply steps_trans;
      [apply foldl_record_step_steps | apply emit_all_steps].
  - destruct (cycle_raise eps st x E) as (st' & -> & _ & Hs). done.
Qed.

Lemma loop_steps n eps st : agg_inv st -> steps st (loop n W s eps st).2.
Proof.
  revert st. induction n as [|n IH]; intros st Hinv; simpl; [constructor|].
  unfold bind. pose proof (cycle_steps eps st Hinv) as Hc.
  destruct (cycle W s eps st) as [[[]|x] st1]; simpl in Hc; [|done].
  eapply steps_trans; [done|]. apply IH. by eapply steps_inv.
Qed.

Lemma cycle_records_lookup eps k rs :
  cycle_records W s eps k = Return rs ->
  length rs = length eps
  /\ forall i e, eps !! i = Some e ->
       exists r, rs !! i = Some r
                 /\ probe_record W s e (k + i) = Return r.
Proof.
  revert k rs. induction eps as [|e eps IH]; intros k rs; simpl.
  - intros [= <-]. split; [done|]. intros i e Hi. done.
  - destruct (probe_record W s e k) as [r|x] eqn:Er; [|done].
    destruct (cycle_records W s eps (S k)) as [rs'|x] eqn:Ers; [|done].
    intros [= <-]. destruct (IH (S k) rs' Ers) as [Hlen Hlk].
    split; [simpl; by rewrite Hlen|].
    intros [|i] e' Hi; simpl in *.
    + injection Hi as <-. exists r. by rewrite Nat.add_0_r.
    + destruct (Hlk i e' Hi) as (r' & Hr' & Hp). exists r'.
      split; [done|]. by rewrite <- Nat.add_succ_comm.
Qed.

End loop_facts.

Lemma monitor_endpoints_reachable n W eps :
  reachable (monitor_endpoints n W eps).2.
Proof. apply loop_steps, agg_inv_initial. Qed.

(* ===================================================================== *)
(** ** Facts about the netloc of a URL *)
(* ===================================================================== *)

Module UrlFacts.
Import Url.



Lemma delim_not_unsafe c : is_delim c = true -> is_unsafe c = false.
Proof. destruct c as [[] [] [] [] [] [] [] []]; vm_compute; intuition. Qed.




Lemma remove_unsafe_app a b :
  remove_unsafe (a ++ b) = remove_unsafe a ++ remove_unsafe b.
Proof. apply List.filter_app. Qed.



Lemma remove_unsafe_tail tl :
  tail_chars_ok tl = true -> tail_chars_ok (remove_unsafe tl) = true.
Proof.
  destruct tl as [|c r]; simpl; [done|]. intros Hc.
  by rewrite (delim_not_unsafe c Hc).
Qed.




Lemma list_ascii_of_string_app a b :
  list_ascii_of_string (a ++ b)%string
  = list_ascii_of_string a ++ list_ascii_of_string b.
Proof. induction a as [|c a IH]; simpl; [done | by rewrite IH]. Qed.


Lemma break_fst_tail p l t :
  tail_chars_ok t = true -> (forall c, is_delim c = true -> p c = true) ->
  (break p (l ++ t)).1 = (break p l).1.
Proof.
  intros Ht Hp. induction l as [|x l IH]; simpl.
  - destruct t as [|c r]; [done|]. simpl in *. by rewrite (Hp c Ht).
  - destruct (p x); [done|].
    destruct (break p (l ++ t)) as [a b], (break p l) as [a' b'].
    simpl in *. by rewrite IH.
Qed.

Lemma break_app_found p l t :
  existsb p l = true ->
  break p (l ++ t) = ((break p l).1, (break p l).2 ++ t).
Proof.
  induction l as [|x l IH]; simpl; [done|].
  destruct (p x) eqn:Hx; simpl; [done|]. intros Hex.
  rewrite (IH Hex). by destruct (break p l).
Qed.

Lemma break_not_found p l :
  existsb p l = false -> break p l = (l, []).
Proof.
  induction l as [|x l IH]; simpl; [done|].
  destruct (p x); simpl; [done|]. intros Hex. by rewrite (IH Hex).
Qed.

Lemma break_app_not_found p l t :
  existsb p l = false ->
  break p (l ++ t) = (l ++ (break p t).1, (break p t).2).
Proof.
  induction l as [|x l IH]; simpl.
  - intros _. by destruct (break p t).
  - destruct (p x); simpl; [done|]. intros Hex. by rewrite (IH Hex).
Qed.

Lemma delim_facts c :
  is_delim c = true ->
  is_colon c = false /\ is_scheme_char c = false
  /\ is_c0_or_space c = false.
Proof. destruct c as [[] [] [] [] [] [] [] []]; vm_compute; intuition. Qed.

(** A tail never takes part in the scheme. *)
Lemma break_found_snd p l :
  existsb p l = true -> exists x r, (break p l).2 = x :: r.
Proof.
  induction l as [|y l IH]; simpl; [done|].
  destruct (p y) eqn:Hy; simpl; [by eexists _, _|]. intros Hex.
  destruct (IH Hex) as (x & r & Hxr).
  destruct (break p l). simpl in *. by eexists _, _.
Qed.

Lemma drop_scheme_tail l t :
  tail_chars_ok t = true -> drop_scheme (l ++ t) = drop_scheme l ++ t.
Proof.
  intros Ht. unfold drop_scheme.
  destruct (existsb is_colon l) eqn:Hex.
  - rewrite (break_app_found _ _ _ Hex).
    destruct (break_found_snd _ _ Hex) as (x & r & Hxr).
    destruct (break is_colon l) as [pre rest]. simpl in Hxr. subst rest.
    cbn [fst snd]. destruct pre as [|c pre]; [done|]. cbn [app].
    by destruct (is_alpha c && forallb is_scheme_char (c :: pre)).
  - rewrite (break_app_not_found _ _ _ Hex), (break_not_found _ _ Hex).
    replace (match l with
             | [] => l
             | c :: pre => match @nil ascii with
                           | [] => l
                           | _ :: rest =>
                               if is_alpha c && forallb is_scheme_char (c :: pre)
                               then rest else l
                           end
             end) with l by (by destruct l).
    destruct (break is_colon t) as [a b] eqn:Hab. simpl.
    destruct b as [|x r].
    { by destruct (l ++ a). }
    destruct t as [|d t']; [done|]. simpl in Ht.
    destruct (delim_facts d Ht) as (Hd & Hsc & _).
    simpl in Hab. rewrite Hd in Hab.
    destruct (break is_colon t') as [a' b']. injection Hab as Ha Hb.
    subst a. destruct (l ++ d :: a') as [|c pre] eqn:Hla.
    { by destruct l. }
    change (is_scheme_char c && forallb is_scheme_char pre)
      with (forallb is_scheme_char (c :: pre)).
    replace (forallb is_scheme_char (c :: pre)) with false.
    { by rewrite andb_false_r. }
    rewrite <- Hla. symmetry. rewrite forallb_app. simpl. rewrite Hsc.
    by rewrite andb_false_r.
Qed.

Lemma lstrip_tail l t :
  lstrip l <> [] -> lstrip (l ++ t) = lstrip l ++ t.
Proof.
  induction l as [|c l IH]; simpl; [done|].
  destruct (is_c0_or_space c); [apply IH | done].
Qed.

(** What follows the authority does not change the netloc, nor whether
    the url is rejected. *)
Lemma netloc_chars_tail base tl :
  authority_starts base = true -> tail_chars_ok tl = true ->
  netloc_chars (base ++ tl) = netloc_chars base.
Proof.
  intros Hb Ht. unfold netloc_chars, authority_starts in *.
  assert (Hne : lstrip base <> []).
  { intros Hnil. rewrite Hnil in Hb. done. }
  rewrite (lstrip_tail _ _ Hne), remove_unsafe_app.
  rewrite (drop_scheme_tail _ _ (remove_unsafe_tail tl Ht)).
  destruct (drop_scheme (remove_unsafe (lstrip base)))
    as [|c1 [|c2 rest]]; [done | done |].
  simpl. rewrite Hb.
  rewrite (break_fst_tail is_delim rest _ (remove_unsafe_tail tl Ht));
    [done|]. done.
Qed.

Lemma netloc_tail base tail :
  has_authority base = true -> is_tail tail = true ->
  netloc (base ++ tail)%string = netloc base.
Proof.
  intros Hb Ht. unfold netloc. rewrite list_ascii_of_string_app.
  by rewrite netloc_chars_tail.
Qed.

End UrlFacts.

(* ===================================================================== *)
(** ** Facts about the prober *)
(* ===================================================================== *)

Section prober_facts.


Lemma Qltb_ge a b : Qltb a b = false <-> (b <= a)%Q.
Proof.
  unfold Qltb. rewrite negb_false_iff. apply Qle_bool_iff.
Qed.





(** [send_request] on a method that is a string: the request goes out
    with the verb of the table, and the answer decides. *)
Lemma send_request_str m url headers body s w :
  send_request (PyStr m) url headers body s w
  = match respond w (build_request
                       (dict_get method_switcher (Str.upper m) GET)
                       url headers body s) with
    | Response sc => Return (classify sc w)
    | NetRaise x =>
        if is_RequestException x then Return (PyStr "DOWN") else Raise x
    end.
Proof.
  unfold send_request, send_request_try, issued_request, request_function.
  simpl. destruct (respond w _) as [sc|x]; [|done].
  unfold classify. destruct (status_2xx sc); [|done].
  simpl. by destruct (Qltb _ _).
Qed.








End prober_facts.

(* ===================================================================== *)
(** ** The prober: classification, method selection, return values *)
(* ===================================================================== *)







(* ===================================================================== *)
(** ** Counting the records of a history *)
(* ===================================================================== *)

Section counting.
Import ODictFacts.

Lemma replay_counts h st d :
  total_of (replay h st) d = total_of st d + count_domain d h
  /\ up_of (replay h st) d = up_of st d + count_up d h.
Proof.
  revert st. induction h as [|[d0 v] h IH]; intros st; simpl; [lia|].
  destruct (IH (record_outcome d0 v st)) as [-> ->].
  rewrite total_of_record, up_of_record. split.
  - destruct (decide (d0 = d)); lia.
  - destruct (decide (d0 = d /\ v = PyStr "UP")); lia.
Qed.

Lemma record_steps_counts rs st d :
  total_of (foldl record_step st rs) d = total_of st d + count_domain d rs
  /\ up_of (foldl record_step st rs) d = up_of st d + count_up d rs.
Proof.
  revert st. induction rs as [|[d0 v] rs IH]; intros st; simpl; [lia|].
  destruct (IH (record_step st (d0, v))) as [-> ->].
  unfold record_step. cbn [fst snd].
  rewrite total_of_record, up_of_record.
  rewrite total_of_count_probe, up_of_count_probe. split.
  - destruct (decide (d0 = d)); lia.
  - destruct (decide (d0 = d /\ v = PyStr "UP")); lia.
Qed.

Lemma record_steps_domains rs st d :
  d ∈ domains (foldl record_step st rs) <-> d ∈ domains st \/ d ∈ rs.*1.
Proof.
  revert st. induction rs as [|[d0 v] rs IH]; intros st; simpl.
  - rewrite elem_of_nil. tauto.
  - rewrite IH. unfold record_step. rewrite domains_record, elem_of_cons.
    simpl. change (domains (count_probe st)) with (domains st). tauto.
Qed.

Lemma count_up_le d h : 0 <= count_up d h <= count_domain d h.
Proof.
  induction h as [|[d0 v] h IH]; simpl; [lia|].
  destruct (decide (d0 = d /\ v = PyStr "UP")) as [[-> _]|Hn].
  - rewrite decide_True by done. lia.
  - destruct (decide (d0 = d)); lia.
Qed.

Lemma lookup_elem {K V} `{EqDecision K} (d : ODict.t K V) k v :
  NoDup (ODict.keys d) -> (k, v) ∈ d -> ODict.lookup d k = Some v.
Proof.
  unfold ODict.keys. induction d as [|[k0 v0] d IH]; simpl.
  - intros _ Hin. by apply elem_of_nil in Hin.
  - intros Hnd Hin. apply NoDup_cons in Hnd as [Hk0 Hnd].
    apply elem_of_cons in Hin as [[= -> ->]|Hin].
    + by rewrite decide_True.
    + rewrite decide_False; [by apply IH|].
      intros ->. apply Hk0. apply list_elem_of_fmap. by exists (k, v).
Qed.

End counting.

(* ===================================================================== *)
(** ** The aggregator: counters, invariant, report *)
(* ===================================================================== *)

(** C3.  Recording an outcome adds exactly 1 to the total of its domain,
    and 1 to its up counter exactly when the outcome is ['UP']; the
    counters of the other domains stay.  No step of the monitor takes
    anything from a counter, within a cycle or from one cycle to the
    next.  So after a history of records the total of a domain is the
    number of its records, and in every reachable state
    [0 <= upCount <= totalCount]. *)
Theorem record_outcome_counters :
  (forall d status st d',
     total_of (record_outcome d status st) d'
     = total_of st d' + (if decide (d = d') then 1 else 0)
     /\ up_of (record_outcome d status st) d'
        = up_of st d'
          + (if decide (d = d' /\ status = PyStr "UP") then 1 else 0))
  /\ (forall h d,
        total_of (replay h initial_state) d = count_domain d h
        /\ up_of (replay h initial_state) d = count_up d h)
  /\ (forall W s eps st rs d,
        reachable st ->
        cycle_records W s eps (probes st) = Return rs ->
        total_of (cycle W s eps st).2 d = total_of st d + count_domain d rs
        /\ up_of (cycle W s eps st).2 d = up_of st d + count_up d rs)
  /\ (forall st st' d,
        steps st st' ->
        total_of st d <= total_of st' d /\ up_of st d <= up_of st' d)
  /\ (forall n W s eps st d,
        reachable st ->
        total_of st d <= total_of (loop n W s eps st).2 d
        /\ up_of st d <= up_of (loop n W s eps st).2 d)
  /\ (forall st d, reachable st -> 0 <= up_of st d <= total_of st d).
Proof.
  split; [|split; [|split; [|split; [|split]]]].
  - intros d status st d'. split; [apply total_of_record | apply up_of_record].
  - intros h d. destruct (replay_counts h initial_state d) as [-> ->].
    done.
  - intros W s eps st rs d Hr Hrs.
    rewrite (cycle_return W s eps st rs (reachable_inv st Hr) Hrs). simpl.
    rewrite total_of_emit, up_of_emit.
    change (total_of (emit_all ?es ?x) d) with (total_of x d).
    change (up_of (emit_all ?es ?x) d) with (up_of x d).
    apply record_steps_counts.
  - intros st st' d Hs. destruct (steps_monotone st st' d Hs) as (? & ? & _).
    done.
  - intros n W s eps st d Hr.
    pose proof (loop_steps W s n eps st (reachable_inv st Hr)) as Hs.
    destruct (steps_monotone _ _ d Hs) as (? & ? & _). done.
  - intros st d Hr.
    destruct (agg_inv_views st d (reachable_inv st Hr)) as (Ht & Hu & Hd).
    lia.
Qed.

Lemma record_outcome_counters_witness :
  total_of (cycle alternating create_session
              [simple_endpoint "https://example.com/health"]
              initial_state).2 (DStr "example.com") = 1
  /\ 0 <= up_of (record_outcome (DStr "example.com") (PyStr "UP")
                   initial_state) (DStr "example.com")
     <= total_of (record_outcome (DStr "example.com") (PyStr "UP")
                    initial_state) (DStr "example.com").
Proof.
  split.
  - rewrite (proj1 (proj1 (proj2 (proj2 record_outcome_counters))
               alternating create_session
               [simple_endpoint "https://example.com/health"]
               initial_state [(DStr "example.com", PyStr "UP")]
               (DStr "example.com") (steps_refl _) eq_refl)).
    reflexivity.
  - apply (proj2 (proj2 (proj2 (proj2 (proj2 record_outcome_counters))))).
    apply steps_record, steps_refl.
Defined.

(** C10.  In every reachable state the two dictionaries have the same
    keys, and every domain has [upCount + downCount = totalCount]: a
    record adds 1 to the total and 1 to exactly one of up and down.  So
    for every domain that the report iterates the total it reads is at
    least 1, the read inserts nothing, and the availability is the
    division, never the [0] of the other branch. *)
Theorem aggregator_invariant :
  (forall d status st d',
     up_of (record_outcome d status st) d'
     + down_of (record_outcome d status st) d'
     = up_of st d' + down_of st d' + (if decide (d = d') then 1 else 0))
  /\ (forall st,
        reachable st ->
        ODict.keys (domain_stats st) = ODict.keys (domain_totals st)
        /\ (forall d, up_of st d + down_of st d = total_of st d)
        /\ (forall d s,
              (d, s) ∈ domain_stats st ->
              read_total d st = (Return (up s + down s), st)
              /\ 1 <= up s + down s
              /\ availability s (up s + down s)
                 = truediv (100 * up s) (up s + down s))).
Proof.
  split.
  - intros d status st d'. rewrite up_of_record, down_of_record.
    destruct (decide (d = d')) as [->|Hne].
    + destruct (decide (status = PyStr "UP")).
      * rewrite decide_True, decide_False by tauto. lia.
      * rewrite decide_False, decide_True by tauto. lia.
    + rewrite !decide_False by tauto. lia.
  - intros st Hr. pose proof (reachable_inv st Hr) as Hinv.
    split; [apply Hinv|]. split.
    + intros d. destruct (agg_inv_views st d Hinv) as (-> & _). done.
    + intros d s Hin.
      pose proof (lookup_elem _ d s (inv_nodup st Hinv) Hin) as Hl.
      destruct (inv_counts st Hinv d s Hl) as (Ht & Hu & Hd & Hpos).
      split; [|split; [done|]].
      * rewrite read_total_inv; [|done|].
        -- unfold total_of. by rewrite Ht.
        -- unfold domains. by eapply ODictFacts.lookup_Some_keys.
      * unfold availability.
        destruct (up s + down s =? 0) eqn:E; [|done].
        apply Z.eqb_eq in E. lia.
Qed.

Lemma aggregator_invariant_witness :
  ODict.keys (domain_stats (monitor_endpoints 2 alternating
                [simple_endpoint "https://example.com/health"]).2)
  = ODict.keys (domain_totals (monitor_endpoints 2 alternating
                  [simple_endpoint "https://example.com/health"]).2)
  /\ up_of (monitor_endpoints 2 alternating
              [simple_endpoint "https://example.com/health"]).2
       (DStr "example.com")
     + down_of (monitor_endpoints 2 alternating
                  [simple_endpoint "https://example.com/health"]).2
         (DStr "example.com")
     = total_of (monitor_endpoints 2 alternating
                   [simple_endpoint "https://example.com/health"]).2
         (DStr "example.com").
Proof.
  pose proof (proj2 aggregator_invariant
                (monitor_endpoints 2 alternating
                   [simple_endpoint "https://example.com/health"]).2
                (monitor_endpoints_reachable 2 alternating
                   [simple_endpoint "https://example.com/health"]))
    as (Hk & Hs & _).
  split; [exact Hk | apply Hs].
Defined.

(** C8.  Producing the report leaves the aggregator as it is.  In any
    state the report returns and leaves [domain_stats], hence the
    domains present and every up and down counter, and the value of
    every total as they were.  In every reachable state the dictionary
    of totals itself is unchanged too: only lines have been printed. *)
Theorem report_preserves_aggregator :
  (forall st,
     (report st).1 = Return tt
     /\ domain_stats (report st).2 = domain_stats st
     /\ domains (report st).2 = domains st
     /\ (forall d, up_of (report st).2 d = up_of st d
                   /\ down_of (report st).2 d = down_of st d
                   /\ total_of (report st).2 d = total_of st d)
     /\ probes (report st).2 = probes st)
  /\ (forall st,
        reachable st ->
        domain_totals (report st).2 = domain_totals st
        /\ ODict.keys (domain_totals (report st).2) = domains st).
Proof.
  split.
  - intros st. destruct (report_frame st) as (Hs & Hp & Ht).
    split; [apply report_returns|]. split; [done|].
    split; [unfold domains; by rewrite Hs|].
    split; [|done]. intros d. unfold up_of, down_of. rewrite Hs.
    by rewrite Ht.
  - intros st Hr. pose proof (reachable_inv st Hr) as Hinv.
    rewrite (report_inv st Hinv). simpl. split; [done|].
    symmetry. apply Hinv.
Qed.

Lemma report_preserves_aggregator_witness :
  domain_totals
    (report (record_outcome (DStr "example.com") (PyStr "UP")
               initial_state)).2
  = [(DStr "example.com", 1)].
Proof.
  rewrite (proj1 (proj2 report_preserves_aggregator
             (record_outcome (DStr "example.com") (PyStr "UP") initial_state)
             (steps_record _ _ _ _ (steps_refl _)))).
  reflexivity.
Defined.

(** C2.  The percentage that the report prints for a domain is
    [round(100 * upCount / totalCount)] when [totalCount > 0] and [0]
    when [totalCount = 0]; [round] gives a nearest integer, the even one
    on a tie.  The report never raises: the division is never by zero.
    After three cycles against an endpoint that answers UP, DOWN, UP the
    domain has total 3, up 2, and the report prints 67. *)
Theorem availability_report :
  (forall st, (report st).1 = Return tt)
  /\ (forall st,
        reachable st ->
        output (report st).2 = output st ++ report_lines st)
  /\ (forall s total_count,
        0 <= total_count ->
        exists a, availability s total_count = Return a
                  /\ py_round a = availabilityPercent_spec (up s) total_count)
  /\ (forall upCount, availabilityPercent_spec upCount 0 = 0)
  /\ (forall upCount totalCount,
        0 < totalCount ->
        - totalCount
        <= 2 * (100 * upCount
                - availabilityPercent_spec upCount totalCount * totalCount)
        <= totalCount)
  /\ (forall upCount totalCount,
        0 < totalCount ->
        2 * (100 * upCount
             - availabilityPercent_spec upCount totalCount * totalCount)
        = totalCount
        \/ 2 * (100 * upCount
                - availabilityPercent_spec upCount totalCount * totalCount)
           = - totalCount ->
        Z.even (availabilityPercent_spec upCount totalCount) = true)
  /\ (let st := (monitor_endpoints 3 alternating
                   [simple_endpoint "https://example.com/health"]).2 in
      total_of st (DStr "example.com") = 3
      /\ up_of st (DStr "example.com") = 2
      /\ availabilityPercent_spec 2 3 = 67
      /\ last (output st) = Some (Slept 15)
      /\ output st !! 4%nat
         = Some (Printed "example.com has 67% availability percentage")).
Proof.
  split; [|split; [|split; [|split; [|split; [|split]]]]].
  - apply report_returns.
  - intros st Hr. by rewrite (report_inv st (reachable_inv st Hr)).
  - intros s total_count Hnn.
    destruct (availability_returns s total_count) as [a Ha].
    exists a. split; [done|]. by apply availability_spec.
  - done.
  - intros upCount totalCount Hpos. unfold availabilityPercent_spec.
    rewrite (proj2 (Z.ltb_lt 0 totalCount)) by done.
    pose proof (py_round_nearest (100 * upCount) (Z.to_pos totalCount)) as Hn.
    rewrite Z2Pos.id in Hn by done. done.
  - intros upCount totalCount Hpos. unfold availabilityPercent_spec.
    rewrite (proj2 (Z.ltb_lt 0 totalCount)) by done.
    pose proof (py_round_tie (100 * upCount) (Z.to_pos totalCount)) as Hn.
    rewrite Z2Pos.id in Hn by done. done.
  - vm_compute. repeat split.
Qed.

Lemma availability_report_witness :
  output (report (record_outcome (DStr "example.com") (PyStr "DOWN")
                    (record_outcome (DStr "example.com") (PyStr "UP")
                       initial_state))).2
  = [Printed "example.com has 50% availability percentage"]
  /\ - 3 <= 2 * (100 * 2 - availabilityPercent_spec 2 3 * 3) <= 3.
Proof.
  split.
  - rewrite (proj1 (proj2 availability_report)
               (record_outcome (DStr "example.com") (PyStr "DOWN")
                  (record_outcome (DStr "example.com") (PyStr "UP")
                     initial_state))
               (steps_record _ _ _ _ (steps_record _ _ _ _ (steps_refl _)))).
    reflexivity.
  - apply (proj1 (proj2 (proj2 (proj2 (proj2 availability_report)))) 2 3).
    lia.
Defined.

(* ===================================================================== *)
(** ** The monitor loop: order, report, errors *)
(* ===================================================================== *)

Section cycle_shape.

Lemma report_lines_per_domain st :
  Forall2 (fun d ev => exists percent, ev = Printed (report_line d percent))
    (domains st) (report_lines st).
Proof.
  unfold domains, ODict.keys, report_lines.
  apply Forall2_fmap, Forall_Forall2_diag, Forall_forall.
  intros [d s] _. unfold line_of. simpl. by eexists.
Qed.



End cycle_shape.

(** C7.  In a cycle in which no probe raises, the outcomes are recorded
    one per endpoint in the order of the endpoint list; the report is
    printed after the last of them, from the counters that include all
    of them, and it has one line per domain of the aggregator: the
    domains seen before the cycle and those of the cycle, each once.
    In a cycle in which a probe raises nothing is printed at all. *)
Theorem cycle_order_and_report W s eps st :
  reachable st ->
  (forall rs,
     cycle_records W s eps (probes st) = Return rs ->
     length rs = length eps
     /\ (forall i e, eps !! i = Some e ->
           exists r, rs !! i = Some r
                     /\ probe_record W s e (probes st + i) = Return r)
     /\ for_each eps (probe_and_record W s) st
        = (Return tt, foldl record_step st rs)
     /\ cycle W s eps st
        = (Return tt,
           emit (Slept 15)
             (emit_all (report_lines (foldl record_step st rs))
                (foldl record_step st rs)))
     /\ output (cycle W s eps st).2
        = output st ++ report_lines (foldl record_step st rs) ++ [Slept 15]
     /\ Forall2 (fun d ev => exists percent,
                   ev = Printed (report_line d percent))
          (domains (foldl record_step st rs))
          (report_lines (foldl record_step st rs))
     /\ NoDup (domains (foldl record_step st rs))
     /\ (forall d, d ∈ domains (foldl record_step st rs)
                   <-> d ∈ domains st \/ d ∈ rs.*1))
  /\ (forall x,
        cycle_records W s eps (probes st) = Raise x ->
        exists st', cycle W s eps st = (Raise x, st')
                    /\ output st' = output st).
Proof.
  intros Hr. pose proof (reachable_inv st Hr) as Hinv. split.
  - intros rs Hrs.
    destruct (cycle_records_lookup W s eps _ rs Hrs) as [Hlen Hlk].
    split; [done|]. split; [done|].
    split; [by apply for_each_records|].
    split; [by apply cycle_return|].
    split.
    { rewrite (cycle_return W s eps st rs Hinv Hrs). simpl.
      rewrite foldl_record_step_output. by rewrite app_assoc. }
    split; [apply report_lines_per_domain|].
    split.
    { apply inv_nodup. eapply steps_inv;
        [apply foldl_record_step_steps | done]. }
    apply record_steps_domains.
  - intros x Hx. destruct (cycle_raise W s eps st x Hx) as (st' & ? & ? & _).
    by exists st'.
Qed.

Lemma cycle_order_and_report_witness :
  output (cycle alternating create_session
            [simple_endpoint "https://example.com/a";
             simple_endpoint "https://example.org/b";
             simple_endpoint "https://example.com/c"] initial_state).2
  = [] ++ report_lines
            (foldl record_step initial_state
               [(DStr "example.com", PyStr "UP");
                (DStr "example.org", PyStr "DOWN");
                (DStr "example.com", PyStr "UP")])
       ++ [Slept 15].
Proof.
  apply (proj1 (cycle_order_and_report alternating create_session
                  [simple_endpoint "https://example.com/a";
                   simple_endpoint "https://example.org/b";
                   simple_endpoint "https://example.com/c"]
                  initial_state (steps_refl _))
           [(DStr "example.com", PyStr "UP");
            (DStr "example.org", PyStr "DOWN");
            (DStr "example.com", PyStr "UP")]).
  reflexivity.
Defined.






(* ===================================================================== *)
(** ** Further properties of the prober *)
(* ===================================================================== *)

(** X1.  [send_request] raises in two cases only: [AttributeError] when
    the method is not a string, and, for a string method, whatever the
    request call raises that is not a [requests.RequestException].  It
    never raises a [RequestException]. *)
Theorem send_request_raises method url headers body s w x :
  send_request method url headers body s w = Raise x
  <-> ((forall m, method <> PyStr m) /\ x = AttributeError)
      \/ (exists m,
            method = PyStr m
            /\ respond w (build_request
                            (dict_get method_switcher (Str.upper m) GET)
                            url headers body s) = NetRaise x
            /\ x <> RequestException).
Proof.
  destruct method as [|m|d].
  - split.
    + intros [= <-]. left. split; [intros m; discriminate | done].
    + intros [[_ ->]|(m & Hm & _)]; [done | discriminate].
  - rewrite send_request_str. split.
    + destruct (respond w _) as [sc|x0] eqn:E; [done|].
      destruct x0; simpl; try done; intros [= <-]; right; exists m; done.
    + intros [[Hm _]|(m' & [= <-] & -> & Hx)]; [by destruct (Hm m)|].
      destruct x; simpl; done.
  - split.
    + intros [= <-]. left. split; [intros m; discriminate | done].
    + intros [[_ ->]|(m & Hm & _)]; [done | discriminate].
Qed.

(* ===================================================================== *)
(** ** Further properties of the report *)
(* ===================================================================== *)

Section percent_facts.

Lemma py_round_monotone n1 n2 d :
  n1 <= n2 -> py_round (Qmake n1 d) <= py_round (Qmake n2 d).
Proof.
  intros Hle. unfold py_round. simpl.
  pose proof (Z.div_mod n1 (Zpos d) ltac:(lia)) as Hdm1.
  pose proof (Z.mod_pos_bound n1 (Zpos d) ltac:(lia)) as Hb1.
  pose proof (Z.div_mod n2 (Zpos d) ltac:(lia)) as Hdm2.
  pose proof (Z.mod_pos_bound n2 (Zpos d) ltac:(lia)) as Hb2.
  pose proof (Z.div_le_mono n1 n2 (Zpos d) ltac:(lia) Hle) as Hq.
  destruct (Z.eq_dec (n1 / Zpos d) (n2 / Zpos d)) as [Heq|Hne].
  - rewrite <- Heq in *.
    assert (n1 mod Zpos d <= n2 mod Zpos d) by lia.
    destruct (Z.compare_spec (2 * (n1 mod Zpos d)) (Zpos d));
      destruct (Z.compare_spec (2 * (n2 mod Zpos d)) (Zpos d));
      destruct (Z.even (n1 / Zpos d)); lia.
  - destruct (Z.compare_spec (2 * (n1 mod Zpos d)) (Zpos d));
      destruct (Z.compare_spec (2 * (n2 mod Zpos d)) (Zpos d));
      destruct (Z.even (n1 / Zpos d));
      destruct (Z.even (n2 / Zpos d)); lia.
Qed.

Lemma py_round_integer n d : py_round (Qmake (n * Zpos d) d) = n.
Proof.
  unfold py_round. simpl.
  rewrite Z.div_mul, Z.mod_mul by lia. simpl. done.
Qed.

Lemma availability_value s total_count :
  0 < total_count ->
  availability s total_count
  = Return (Qmake (100 * up s) (Z.to_pos total_count)).
Proof.
  intros Hpos. unfold availability, truediv.
  rewrite (proj2 (Z.eqb_neq total_count 0)) by lia.
  by rewrite (proj2 (Z.ltb_lt 0 total_count)).
Qed.


End percent_facts.



(** X3.  For a positive total the printed percentage grows with the up
    counter: more UP outcomes never lower it.  It is 100 when every
    outcome was UP and 0 when none was. *)
Theorem availability_monotone :
  (forall s1 s2 total_count a1 a2,
     0 < total_count -> up s1 <= up s2 ->
     availability s1 total_count = Return a1 ->
     availability s2 total_count = Return a2 ->
     py_round a1 <= py_round a2)
  /\ (forall s total_count a,
        0 < total_count ->
        availability s total_count = Return a ->
        (up s = total_count -> py_round a = 100)
        /\ (up s = 0 -> py_round a = 0)).
Proof.
  split.
  - intros s1 s2 t a1 a2 Hpos Hle.
    rewrite !availability_value by done. intros [= <-] [= <-].
    apply py_round_monotone. lia.
  - intros s t a Hpos. rewrite availability_value by done. intros [= <-].
    split.
    + intros ->. pose proof (py_round_integer 100 (Z.to_pos t)) as Hi.
      rewrite Z2Pos.id in Hi by done. done.
    + intros ->. pose proof (py_round_integer 0 (Z.to_pos t)) as Hi.
      done.
Qed.

Lemma availability_monotone_witness :
  py_round (100 # 3) <= py_round (200 # 3)
  /\ py_round (300 # 3) = 100.
Proof.
  split.
  - apply (proj1 availability_monotone {| up := 1; down := 2 |}
             {| up := 2; down := 1 |} 3 (100 # 3) (200 # 3));
      [lia | simpl; lia | reflexivity | reflexivity].
  - apply (proj1 (proj2 availability_monotone {| up := 3; down := 0 |} 3
                    (300 # 3) ltac:(lia) eq_refl)).
    reflexivity.
Defined.

(* ===================================================================== *)
(** ** Further properties of the monitor loop *)
(* ===================================================================== *)

Section loop_more.
Variables (W : world) (s : session).

Lemma for_each_app {A} (l1 l2 : list A) (body : A -> M unit) st :
  for_each (l1 ++ l2) body st
  = match for_each l1 body st with
    | (Return _, st1) => for_each l2 body st1
    | (Raise x, st1) => (Raise x, st1)
    end.
Proof.
  revert st. induction l1 as [|a l1 IH]; intros st; simpl; [done|].
  unfold bind. destruct (body a st) as [[[]|x] st1]; [apply IH | done].
Qed.

Lemma loop_raise n eps st x st' :
  cycle W s eps st = (Raise x, st') ->
  loop (S n) W s eps st = (Raise x, st').
Proof. intros Hc. simpl. unfold bind. by rewrite Hc. Qed.

Lemma probe_record_domain e k r :
  probe_record W s e k = Return r -> endpoint_netloc e = Return r.1.
Proof.
  unfold probe_record, endpoint_netloc.
  destruct (ep_getitem e "url") as [url|x]; [|done].
  destruct (check_endpoint e s (W k)) as [status|x]; [|done].
  destruct (urlparse_netloc url) as [d|x]; [|done].
  by intros [= <-].
Qed.

Lemma cycle_records_count eps k rs d :
  cycle_records W s eps k = Return rs ->
  count_domain d rs = count_endpoints d eps.
Proof.
  revert k rs. induction eps as [|e eps IH]; intros k rs; simpl.
  - by intros [= <-].
  - destruct (probe_record W s e k) as [r|x] eqn:Er; [|done].
    destruct (cycle_records W s eps (S k)) as [rs'|x] eqn:Ers; [|done].
    intros [= <-]. simpl. rewrite (IH _ _ Ers).
    rewrite (probe_record_domain e k r Er).
    destruct (decide (r.1 = d)) as [->|Hne].
    + by rewrite decide_True.
    + rewrite decide_False; [done | congruence].
Qed.

Lemma cycle_records_netlocs eps k rs :
  cycle_records W s eps k = Return rs ->
  Forall2 (fun e r => endpoint_netloc e = Return r.1) eps rs.
Proof.
  revert k rs. induction eps as [|e eps IH]; intros k rs; simpl.
  - intros [= <-]. constructor.
  - destruct (probe_record W s e k) as [r|x] eqn:Er; [|done].
    destruct (cycle_records W s eps (S k)) as [rs'|x] eqn:Ers; [|done].
    intros [= <-]. constructor; [by eapply probe_record_domain | by eapply IH].
Qed.

End loop_more.

(** X4.  When the probe of an endpoint raises, the exception ends the
    cycle and the loop at once: the outcomes of the endpoints before it
    stay recorded, the endpoints after it are not probed, nothing is
    printed and the loop does not sleep or start another cycle. *)
Theorem cycle_abort_keeps_prefix W s pre e post st rs x n :
  cycle_records W s pre (probes st) = Return rs ->
  probe_record W s e (probes st + length pre) = Raise x ->
  exists st',
    cycle W s (pre ++ e :: post) st = (Raise x, st')
    /\ loop (S n) W s (pre ++ e :: post) st = (Raise x, st')
    /\ domain_stats st' = domain_stats (foldl record_step st rs)
    /\ domain_totals st' = domain_totals (foldl record_step st rs)
    /\ output st' = output st
    /\ (probes st' <= S (probes st + length pre))%nat.
Proof.
  intros Hpre He.
  destruct (cycle_records_lookup W s pre _ rs Hpre) as [Hlen _].
  assert (Hp : probes (foldl record_step st rs)
               = (probes st + length pre)%nat).
  { rewrite foldl_record_step_probes. lia. }
  rewrite <- Hp in He.
  destruct (probe_and_record_raise W s e _ x He) as (st' & Hrun & Hst').
  assert (Hc : cycle W s (pre ++ e :: post) st = (Raise x, st')).
  { unfold cycle, bind. rewrite for_each_app.
    rewrite (for_each_records W s pre st rs Hpre).
    cbn [for_each]. unfold bind. by rewrite Hrun. }
  exists st'. split; [done|]. split; [by apply loop_raise|].
  destruct Hst' as [->| ->]; simpl;
    rewrite ?foldl_record_step_output; repeat split; lia.
Qed.

Lemma cycle_abort_keeps_prefix_witness :
  exists st',
    cycle alternating create_session
      ([simple_endpoint "https://example.com/a"]
       ++ null_method_endpoint "https://example.org/" :: [])
      initial_state = (Raise AttributeError, st')
    /\ loop 3 alternating create_session
         ([simple_endpoint "https://example.com/a"]
          ++ null_method_endpoint "https://example.org/" :: [])
         initial_state = (Raise AttributeError, st')
    /\ domain_stats st'
       = domain_stats (foldl record_step initial_state
                         [(DStr "example.com", PyStr "UP")])
    /\ domain_totals st'
       = domain_totals (foldl record_step initial_state
                          [(DStr "example.com", PyStr "UP")])
    /\ output st' = output initial_state
    /\ (probes st' <= S (probes initial_state + 1))%nat.
Proof.
  apply (cycle_abort_keeps_prefix alternating create_session
           [simple_endpoint "https://example.com/a"]
           (null_method_endpoint "https://example.org/") []
           initial_state [(DStr "example.com", PyStr "UP")]
           AttributeError 2); reflexivity.
Defined.

(** X5.  An endpoint without a [url] key raises [KeyError] at
    [endpoint['url']], before the probe: the oracle is not consulted,
    the state is left exactly as the endpoints before it made it, and
    the loop ends.  [check_endpoint] on its own reads the key with
    [get] and sends the request with the url [None]. *)
Theorem missing_url_raises_before_probe W s pre (e : endpoint) post st rs n :
  e !! "url" = None ->
  cycle_records W s pre (probes st) = Return rs ->
  probe_and_record W s e st = (Raise KeyError, st)
  /\ loop (S n) W s (pre ++ e :: post) st
     = (Raise KeyError, foldl record_step st rs)
  /\ forall w,
       check_endpoint e s w
       = send_request (ep_get e "method" (PyStr "GET")) PyNone
           (ep_get e "headers" (PyDict [])) (ep_get e "body" PyNone) s w.
Proof.
  intros Hurl Hpre.
  assert (Hone : forall st0, probe_and_record W s e st0 = (Raise KeyError, st0)).
  { intros st0. unfold probe_and_record, bind, lift, ep_getitem.
    by rewrite Hurl. }
  split; [apply Hone|]. split.
  - apply loop_raise. unfold cycle, bind. rewrite for_each_app.
    rewrite (for_each_records W s pre st rs Hpre).
    cbn [for_each]. unfold bind. by rewrite Hone.
  - intros w. unfold check_endpoint.
    assert (ep_get e "url" PyNone = PyNone) as ->
      by (unfold ep_get; by rewrite Hurl).
    done.
Qed.

Lemma missing_url_raises_before_probe_witness :
  loop 2 alternating create_session
    ([simple_endpoint "https://example.com/a"]
     ++ {[ "method" := PyStr "GET" ]} :: [simple_endpoint "https://b.org/"])
    initial_state
  = (Raise KeyError,
     foldl record_step initial_state [(DStr "example.com", PyStr "UP")]).
Proof.
  apply (missing_url_raises_before_probe alternating create_session
           [simple_endpoint "https://example.com/a"]
           {[ "method" := PyStr "GET" ]}
           [simple_endpoint "https://b.org/"] initial_state
           [(DStr "example.com", PyStr "UP")] 1); reflexivity.
Defined.

(** X6.  With no endpoint to probe, the loop probes nothing, records no
    domain, prints no line, and sleeps 15 seconds in each cycle. *)
Theorem monitor_no_endpoints n W :
  monitor_endpoints n W []
  = (Return tt, emit_all (replicate n (Slept 15)) initial_state).
Proof.
  unfold monitor_endpoints.
  assert (Hgen : forall st,
            domain_stats st = [] ->
            loop n W create_session [] st
            = (Return tt, emit_all (replicate n (Slept 15)) st)).
  { induction n as [|n IH]; intros st Hst; simpl.
    - unfold ret. by rewrite emit_all_nil.
    - unfold bind, cycle, bind, report, bind, gets. simpl.
      rewrite Hst. simpl. unfold modify. rewrite IH by done.
      rewrite emit_emit_all, emit_all_app. done. }
  by apply Hgen.
Qed.

Section accumulation.
Variables (W : world) (s : session).

Lemma cycle_returns_records eps st st1 :
  cycle W s eps st = (Return tt, st1) ->
  exists rs, cycle_records W s eps (probes st) = Return rs.
Proof.
  intros Hc. destruct (cycle_records W s eps (probes st)) as [rs|x] eqn:E.
  - by exists rs.
  - destruct (cycle_raise W s eps st x E) as (st' & Hr & _). congruence.
Qed.

Lemma loop_succ_return n eps st st' :
  loop (S n) W s eps st = (Return tt, st') ->
  exists st1, cycle W s eps st = (Return tt, st1)
              /\ loop n W s eps st1 = (Return tt, st').
Proof.
  simpl. unfold bind.
  destruct (cycle W s eps st) as [[[]|x] st1]; [|done].
  intros Hl. by exists st1.
Qed.

Lemma domains_record_present d v st :
  d ∈ domains st -> domains (record_outcome d v st) = domains st.
Proof.
  intros Hin. unfold domains. rewrite record_outcome_stats.
  by apply ODictFacts.set_present.
Qed.

Lemma domains_record_steps_present rs st :
  Forall (fun r => r.1 ∈ domains st) rs ->
  domains (foldl record_step st rs) = domains st.
Proof.
  revert st. induction rs as [|r rs IH]; intros st Hall; [done|].
  apply Forall_cons in Hall as [Hr Hall]. simpl.
  assert (Hd : domains (record_step st r) = domains st).
  { unfold record_step. by rewrite domains_record_present. }
  rewrite IH; [done|]. by rewrite Hd.
Qed.

Lemma sum_set (d : ODict.t domain Z) k v :
  foldr Z.add 0 (ODict.set d k v).*2
  = foldr Z.add 0 d.*2 - default 0 (ODict.lookup d k) + v.
Proof.
  induction d as [|[k0 v0] d IH]; [simpl; lia|].
  cbn [ODict.set ODict.lookup].
  destruct (decide (k0 = k)); rewrite !fmap_cons; cbn [foldr snd].
  - simpl. lia.
  - rewrite IH. lia.
Qed.

Lemma sum_totals_record_step st r :
  sum_totals (record_step st r) = sum_totals st + 1.
Proof.
  unfold sum_totals, record_step. rewrite record_outcome_totals, sum_set.
  unfold total_of. simpl. lia.
Qed.

Lemma sum_totals_record_steps rs st :
  sum_totals (foldl record_step st rs) = sum_totals st + Z.of_nat (length rs).
Proof.
  revert st. induction rs as [|r rs IH]; intros st; simpl; [lia|].
  rewrite IH, sum_totals_record_step. lia.
Qed.

(** The probes of the [for] loop and the totals move together; a probe
    that raises may have been counted as issued without a record. *)
Lemma for_each_balance eps st :
  match for_each eps (probe_and_record W s) st with
  | (Return _, st') =>
      sum_totals st' - Z.of_nat (probes st')
      = sum_totals st - Z.of_nat (probes st)
  | (Raise _, st') =>
      sum_totals st - Z.of_nat (probes st) - 1
      <= sum_totals st' - Z.of_nat (probes st')
      <= sum_totals st - Z.of_nat (probes st)
  end.
Proof.
  destruct (cycle_records W s eps (probes st)) as [rs|x] eqn:E.
  - rewrite (for_each_records W s eps st rs E).
    rewrite sum_totals_record_steps, foldl_record_step_probes. lia.
  - revert st E. induction eps as [|e eps IH]; intros st; simpl; [done|].
    destruct (probe_record W s e (probes st)) as [r|x0] eqn:Er.
    + destruct (cycle_records W s eps (S (probes st))) as [rs'|x1] eqn:Ers;
        [done|].
      intros [= <-]. unfold bind.
      rewrite (probe_and_record_return W s e st r Er).
      specialize (IH (record_step st r)).
      rewrite record_step_probes in IH. specialize (IH Ers).
      destruct (for_each eps (probe_and_record W s) (record_step st r))
        as [[[]|x2] st'].
      * rewrite ?sum_totals_record_step, ?record_step_probes in IH. lia.
      * rewrite ?sum_totals_record_step, ?record_step_probes in IH. lia.
    + intros [= <-]. unfold bind.
      destruct (probe_and_record_raise W s e st x0 Er) as (st' & -> & [->| ->]).
      * lia.
      * unfold sum_totals. simpl. lia.
Qed.

End accumulation.

(** X7.  The totals are cumulative over the run: after [n] cycles that
    all complete, the total of every domain has grown by [n] times the
    number of endpoints with that domain, and [n] times the number of
    endpoints probes have been made. *)
Theorem totals_accumulate n W s eps st st' :
  reachable st ->
  loop n W s eps st = (Return tt, st') ->
  (forall d,
     total_of st' d = total_of st d + Z.of_nat n * count_endpoints d eps)
  /\ probes st' = (probes st + n * length eps)%nat.
Proof.
  revert st. induction n as [|n IH]; intros st Hr Hl.
  - simpl in Hl. injection Hl as <-. split; [intros d|]; lia.
  - destruct (loop_succ_return W s n eps st st' Hl) as (st1 & Hc & Hl1).
    destruct (cycle_returns_records W s eps st st1 Hc) as (rs & Hrs).
    pose proof (reachable_inv st Hr) as Hinv.
    rewrite (cycle_return W s eps st rs Hinv Hrs) in Hc.
    injection Hc as <-.
    assert (Hr1 : reachable
                    (emit (Slept 15)
                       (emit_all (report_lines (foldl record_step st rs))
                          (foldl record_step st rs)))).
    { apply steps_emit. eapply steps_trans; [|apply emit_all_steps].
      eapply steps_trans; [exact Hr | apply foldl_record_step_steps]. }
    destruct (IH _ Hr1 Hl1) as [Ht Hp].
    split.
    + intros d. rewrite Ht. rewrite total_of_emit.
      change (total_of (emit_all ?es ?x) d) with (total_of x d).
      destruct (record_steps_counts rs st d) as [-> _].
      rewrite (cycle_records_count W s eps _ rs d Hrs). lia.
    + rewrite Hp. simpl. rewrite foldl_record_step_probes.
      destruct (cycle_records_lookup W s eps _ rs Hrs) as [-> _]. lia.
Qed.

Lemma totals_accumulate_witness :
  (forall d,
     total_of (monitor_endpoints 3 alternating
                 [simple_endpoint "https://example.com/a";
                  simple_endpoint "https://example.com/b"]).2 d
     = total_of initial_state d
       + Z.of_nat 3
         * count_endpoints d [simple_endpoint "https://example.com/a";
                              simple_endpoint "https://example.com/b"])
  /\ probes (monitor_endpoints 3 alternating
               [simple_endpoint "https://example.com/a";
                simple_endpoint "https://example.com/b"]).2
     = (probes initial_state + 3 * 2)%nat.
Proof.
  apply (totals_accumulate 3 alternating create_session
           [simple_endpoint "https://example.com/a";
            simple_endpoint "https://example.com/b"] initial_state).
  - apply steps_refl.
  - vm_compute. reflexivity.
Defined.

(** X8.  After the first complete cycle the set and the order of the
    domains do not change any more: every later complete cycle over the
    same endpoints reports the same domains in the same order. *)
Theorem domains_stable n W s eps st st1 st' :
  reachable st ->
  cycle W s eps st = (Return tt, st1) ->
  loop n W s eps st1 = (Return tt, st') ->
  domains st' = domains st1.
Proof.
  intros Hr Hc Hl.
  destruct (cycle_returns_records W s eps st st1 Hc) as (rs & Hrs).
  pose proof (reachable_inv st Hr) as Hinv.
  rewrite (cycle_return W s eps st rs Hinv Hrs) in Hc. injection Hc as Hst1.
  assert (Hall : Forall (fun e => exists d, endpoint_netloc e = Return d
                                            /\ d ∈ domains st1) eps).
  { pose proof (cycle_records_netlocs W s eps _ rs Hrs) as Hn.
    apply Forall_forall. intros e He.
    apply list_elem_of_lookup in He as [i Hi].
    destruct (Forall2_lookup_l _ _ _ _ _ Hn Hi) as (r & Hri & Hnet).
    exists r.1. split; [done|]. rewrite <- Hst1.
    change (r.1 ∈ domains (foldl record_step st rs)).
    apply record_steps_domains. right.
    apply list_elem_of_fmap. exists r. split; [done|].
    by eapply list_elem_of_lookup_2. }
  assert (Hinv1 : agg_inv st1).
  { rewrite <- Hst1. apply agg_inv_emit.
    eapply steps_inv; [apply emit_all_steps|].
    eapply steps_inv; [apply foldl_record_step_steps | done]. }
  clear Hst1 Hrs rs Hinv Hr st.
  revert st1 Hall Hinv1 Hl. induction n as [|n IH]; intros st1 Hall Hinv1 Hl.
  - simpl in Hl. by injection Hl as <-.
  - destruct (loop_succ_return W s n eps st1 st' Hl) as (st2 & Hc & Hl2).
    destruct (cycle_returns_records W s eps st1 st2 Hc) as (rs & Hrs).
    rewrite (cycle_return W s eps st1 rs Hinv1 Hrs) in Hc.
    injection Hc as Hst2.
    assert (Hd : domains st2 = domains st1).
    { rewrite <- Hst2.
      change (domains (foldl record_step st1 rs) = domains st1).
      apply domains_record_steps_present.
      pose proof (cycle_records_netlocs W s eps _ rs Hrs) as Hn.
      apply Forall_forall. intros r Hin.
      apply list_elem_of_lookup in Hin as [i Hi].
      destruct (Forall2_lookup_r _ _ _ _ _ Hn Hi) as (e & Hei & Hnet).
      rewrite Forall_forall in Hall.
      destruct (Hall e (list_elem_of_lookup_2 _ _ _ Hei)) as (d & Hd & Hin).
      congruence. }
    rewrite <- Hd. apply IH; [|by rewrite <- Hst2; apply agg_inv_emit;
      eapply steps_inv; [apply emit_all_steps|];
      eapply steps_inv; [apply foldl_record_step_steps | done] | done].
    rewrite Hd. done.
Qed.

Lemma domains_stable_witness :
  domains (loop 2 alternating create_session
             [simple_endpoint "https://example.com/a";
              simple_endpoint "https://example.org/b"]
             (cycle alternating create_session
                [simple_endpoint "https://example.com/a";
                 simple_endpoint "https://example.org/b"]
                initial_state).2).2
  = domains (cycle alternating create_session
               [simple_endpoint "https://example.com/a";
                simple_endpoint "https://example.org/b"]
               initial_state).2.
Proof.
  apply (domains_stable 2 alternating create_session
           [simple_endpoint "https://example.com/a";
            simple_endpoint "https://example.org/b"] initial_state).
  - apply steps_refl.
  - vm_compute. reflexivity.
  - vm_compute. reflexivity.
Defined.

(** X9.  Every probe is counted once: when the loop has completed its
    cycles the totals of all domains add up to the number of probes
    made; when a probe has raised they add up to that number or to one
    less, the probe that raised. *)
Theorem probes_are_counted n W eps :
  match monitor_endpoints n W eps with
  | (Return _, st) => sum_totals st = Z.of_nat (probes st)
  | (Raise _, st) =>
      sum_totals st <= Z.of_nat (probes st) <= sum_totals st + 1
  end.
Proof.
  unfold monitor_endpoints.
  assert (Hgen : forall st,
            agg_inv st -> sum_totals st = Z.of_nat (probes st) ->
            match loop n W create_session eps st with
            | (Return _, st') => sum_totals st' = Z.of_nat (probes st')
            | (Raise _, st') =>
                sum_totals st' <= Z.of_nat (probes st') <= sum_totals st' + 1
            end).
  { induction n as [|n IH]; intros st Hinv Hsum; simpl; [done|].
    unfold bind.
    destruct (cycle_records W create_session eps (probes st)) as [rs|x] eqn:E.
    - rewrite (cycle_return W create_session eps st rs Hinv E).
      apply IH.
      + apply agg_inv_emit. eapply steps_inv; [apply emit_all_steps|].
        eapply steps_inv; [apply foldl_record_step_steps | done].
      + change (sum_totals (foldl record_step st rs)
                = Z.of_nat (probes (foldl record_step st rs))).
        rewrite sum_totals_record_steps, foldl_record_step_probes. lia.
    - pose proof (for_each_balance W create_session eps st) as Hb.
      destruct (for_each_raise W create_session eps st x E)
        as (st' & Hrun & _).
      unfold cycle, bind. rewrite Hrun in Hb |- *. lia. }
  apply Hgen; [apply agg_inv_initial | done].
Qed.

Section oracle_extensionality.

Lemma for_each_ext {A} (l : list A) (f g : A -> M unit) st :
  (forall a st0, f a st0 = g a st0) -> for_each l f st = for_each l g st.
Proof.
  intros Hfg. revert st. induction l as [|a l IH]; intros st; simpl; [done|].
  unfold bind. rewrite Hfg. destruct (g a st) as [[[]|x] st1]; [apply IH | done].
Qed.

Lemma for_each_fmap {A B} (h : A -> B) (l : list A) (f : B -> M unit) st :
  for_each (h <$> l) f st = for_each l (fun a => f (h a)) st.
Proof.
  revert st. induction l as [|a l IH]; intros st; simpl; [done|].
  unfold bind. destruct (f (h a) st) as [[[]|x] st1]; [apply IH | done].
Qed.

Lemma loop_ext n W W' s eps1 eps2 st :
  (forall st0,
     for_each eps1 (probe_and_record W s) st0
     = for_each eps2 (probe_and_record W' s) st0) ->
  loop n W s eps1 st = loop n W' s eps2 st.
Proof.
  intros Hfor. revert st. induction n as [|n IH]; intros st; simpl; [done|].
  unfold bind, cycle, bind. rewrite Hfor.
  destruct (for_each eps2 (probe_and_record W' s) st) as [[[]|x] st1];
    [|done].
  destruct (report st1) as [[[]|x] st2]; [|done].
  unfold modify. apply IH.
Qed.

Lemma send_request_agree method url headers body s w w' :
  max_retries s = 0%nat ->
  time_start w = time_start w' -> time_end w = time_end w' ->
  (forall rq, rq_timeout rq = 1 -> max_retries (rq_session rq) = 0%nat ->
              respond w rq = respond w' rq) ->
  send_request method url headers body s w
  = send_request method url headers body s w'.
Proof.
  intros Hs Ht0 Ht1 Hresp. unfold send_request, send_request_try.
  unfold issued_request.
  destruct (request_function method) as [f|x]; [|done].
  rewrite (Hresp (build_request f url headers body s)) by done.
  unfold latency_ms. by rewrite Ht0, Ht1.
Qed.

End oracle_extensionality.

(** X10.  The monitor sends every request with a timeout of one second
    through the session without retries: an oracle matters only through
    its clock and its answers to such requests. *)
Theorem requests_single_attempt n W W' eps :
  agree_on_probes W W' ->
  monitor_endpoints n W eps = monitor_endpoints n W' eps.
Proof.
  intros Hag. unfold monitor_endpoints. apply loop_ext. intros st0.
  apply for_each_ext. intros e st.
  unfold probe_and_record, bind, probe.
  destruct (lift (ep_getitem e "url") st) as [[url|x] st1]; [|done].
  destruct (Hag (probes st1)) as (Ht0 & Ht1 & Hresp).
  unfold check_endpoint.
  by rewrite (send_request_agree _ _ _ _ create_session
                (W (probes st1)) (W' (probes st1)) eq_refl Ht0 Ht1 Hresp).
Qed.

Lemma requests_single_attempt_witness :
  monitor_endpoints 2 alternating
    [simple_endpoint "https://example.com/a"]
  = monitor_endpoints 2 (only_single_attempts alternating)
      [simple_endpoint "https://example.com/a"].
Proof.
  apply (requests_single_attempt 2 alternating
           (only_single_attempts alternating)).
  intros k. split; [reflexivity|]. split; [reflexivity|].
  intros rq Ht Hr. simpl. rewrite Ht, Hr. reflexivity.
Defined.

(** X11.  A descriptor is read through the keys [url], [method],
    [headers] and [body] only: any other key, such as a [name], changes
    nothing of what the monitor does. *)
Theorem unknown_keys_ignored n W eps key value :
  key ∉ descriptor_keys ->
  monitor_endpoints n W (<[key := value]> <$> eps)
  = monitor_endpoints n W eps.
Proof.
  intros Hk. unfold descriptor_keys in Hk.
  rewrite !not_elem_of_cons in Hk. destruct Hk as (Hu & Hm & Hh & Hb & _).
  unfold monitor_endpoints. apply loop_ext. intros st0.
  rewrite for_each_fmap. apply for_each_ext. intros e st.
  unfold probe_and_record, probe, check_endpoint, ep_getitem, ep_get.
  rewrite !lookup_insert_ne by done. done.
Qed.

Lemma unknown_keys_ignored_witness :
  monitor_endpoints 2 alternating
    (<[ "name" := PyStr "index page" ]>
     <$> [simple_endpoint "https://example.com/a"])
  = monitor_endpoints 2 alternating [simple_endpoint "https://example.com/a"].
Proof.
  apply (unknown_keys_ignored 2 alternating
           [simple_endpoint "https://example.com/a"] "name"
           (PyStr "index page")).
  unfold descriptor_keys. rewrite !not_elem_of_cons.
  repeat split; try discriminate. apply not_elem_of_nil.
Defined.

(* ===================================================================== *)
(** ** [main] and [load_endpoints] *)
(* ===================================================================== *)

Section main_facts.

Lemma argv_two (argv : list string) :
  length argv = 2%nat ->
  exists prog path, argv = [prog; path] /\ nth 1 argv "" = path.
Proof.
  destruct argv as [|prog [|path [|? ?]]]; try done.
  intros _. by exists prog, path.
Qed.


Lemma load_endpoints_cases h path :
  (exists d, load_endpoints h path = ([], LoadReturn d))
  \/ load_endpoints h path = ([not_found_message path], LoadExit 1)
  \/ (exists text,
        load_endpoints h path = ([yaml_error_message text], LoadExit 1))
  \/ (exists name,
        load_endpoints h path = ([], LoadRaise (OtherLoadError name))).
Proof.
  unfold load_endpoints.
  destruct (open_read h path) as [text|e].
  - destruct (yaml_safe_load h text) as [d|[]]; eauto.
  - destruct e; eauto.
Qed.

End main_facts.

(** X12.  [main] enters the monitor loop only when it was given exactly
    one argument, the file was loaded, and the loaded list of endpoints
    is not empty; it has then printed the line that announces the number
    of endpoints, and nothing else.  The loop is never entered with an
    empty list or an empty document. *)
Theorem main_monitors_nonempty h argv n W printed run :
  main h argv n W = Monitoring printed run
  <-> exists prog path e eps,
        argv = [prog; path]
        /\ load_endpoints h path = ([], LoadReturn (DocEndpoints (e :: eps)))
        /\ printed = [monitoring_message (S (length eps))]
        /\ run = monitor_endpoints n W (e :: eps).
Proof.
  split.
  - unfold main. destruct (length argv =? 2)%nat eqn:Hlen; [|done].
    apply Nat.eqb_eq in Hlen.
    destruct (argv_two argv Hlen) as (prog & path & -> & Hpath).
    simpl.
    destruct (load_endpoints_cases h path)
      as [[d Hd]|[Hd|[[text Hd]|[name Hd]]]]; rewrite Hd; try done.
    destruct d as [|[|e eps]]; try done. simpl.
    intros [= <- <-]. by exists prog, path, e, eps.
  - intros (prog & path & e & eps & -> & Hload & -> & ->).
    unfold main. simpl. by rewrite Hload.
Qed.



Lemma main_monitors_nonempty_witness :
  main (single_file_host "endpoints.yaml"
          (DocEndpoints [simple_endpoint "https://example.com/a"]))
    ["health_check.py"; "endpoints.yaml"] 1 alternating
  = Monitoring [monitoring_message 1]
      (monitor_endpoints 1 alternating
         [simple_endpoint "https://example.com/a"]).
Proof.
  apply (proj2 (main_monitors_nonempty
                  (single_file_host "endpoints.yaml"
                     (DocEndpoints [simple_endpoint "https://example.com/a"]))
                  ["health_check.py"; "endpoints.yaml"] 1 alternating
                  [monitoring_message 1]
                  (monitor_endpoints 1 alternating
                     [simple_endpoint "https://example.com/a"]))).
  exists "health_check.py", "endpoints.yaml",
    (simple_endpoint "https://example.com/a"), [].
  repeat split.
Defined.

(* ===================================================================== *)
(** ** Runs in which every probe has the same outcome *)
(* ===================================================================== *)

Section constant_runs.
Variables (W : world) (s : session) (eps : list endpoint).
Variable R : Z -> Z -> Prop.
Variable percent : Z.
Hypothesis R_percent :
  forall u t, R u t -> 1 <= t -> availabilityPercent_spec u t = percent.
Hypothesis records_return :
  forall k, exists rs, cycle_records W s eps k = Return rs.
Hypothesis records_keep :
  forall k rs d u t,
    cycle_records W s eps k = Return rs ->
    R u t -> R (u + count_up d rs) (t + count_domain d rs).



End constant_runs.

Section outcomes_of_worlds.








End outcomes_of_worlds.


